(** * Caliper connectors: the base [BlockchainConnector] and the FISCO BCOS
    connector, embedded as state-passing functions over an event log.

    Sources embedded here:
    - packages/caliper-core/lib/common/core/blockchain-connector.js
    - the FISCO BCOS connector class ([FiscoBcosConnector]).

    JavaScript objects that are created by the code and whose identity can be
    observed (round contexts, worker arguments) live in a heap of references.
    Argument maps are only read, so they are carried by value, as the sequence
    of their properties in [for ... in] enumeration order. *)

From stdpp Require Import base strings list gmap pretty.

Local Open Scope string_scope.
Local Open Scope list_scope.
Local Open Scope Z_scope.

(** ** A fragment of JavaScript *)

Module JS.

(** The integers of magnitude below 2^53: each is a Number, and
    [Number.prototype.toString] prints it as its plain decimal digits. *)
Record safe_integer := SafeInteger {
  safe_value : Z;
  safe_range : (Z.abs safe_value <? 2 ^ 53) = true
}.

(** Values an argument map can hold, as far as they are modelled: strings,
    booleans, the Numbers that are safe integers, [null] and [undefined].
    Other Numbers, arrays and nested objects are left out. *)
Inductive value :=
| VUndefined
| VNull
| VBool (b : bool)
| VNum (n : safe_integer)
| VStr (s : string).

(** An object read by value: own enumerable properties, in the order in
    which [for (let key in obj)] visits them. *)
Definition object := list (string * value).

(** What is thrown, and what a promise rejects with, is an [Error] instance.
    The frames of a stack trace depend on the host; only the header line of
    [stack] is kept. *)
Record error := mkError {
  err_name : string;
  err_message : string;
  err_stack : option string
}.

Definition new_Error (msg : string) : error :=
  mkError "Error" msg (Some ("Error: " +:+ msg)).

Definition new_TypeError (msg : string) : error :=
  mkError "TypeError" msg (Some ("TypeError: " +:+ msg)).

(** Completion of synchronous code: a value, or a thrown error. *)
Inductive completion (A : Type) :=
| Returns (a : A)
| Throws (e : error).
Arguments Returns {A} a.
Arguments Throws {A} e.

(** How a promise settles. *)
Inductive settlement (A : Type) :=
| Fulfilled (a : A)
| Rejected (e : error).
Arguments Fulfilled {A} a.
Arguments Rejected {A} e.

(** An [async] function turns the completion of its body into the
    settlement of the promise it returned. *)
Definition settle {A} (c : completion A) : settlement A :=
  match c with
  | Returns a => Fulfilled a
  | Throws e => Rejected e
  end.

(** [obj[key]]: the value of a property, [undefined] when absent. *)
Fixpoint get (obj : object) (key : string) : value :=
  match obj with
  | [] => VUndefined
  | (k, v) :: rest => if decide (k = key) then v else get rest key
  end.

(** The keys [for (let key in obj)] enumerates. *)
Definition keys (obj : object) : list string := obj.*1.

(** [String(v)], the string coercion of a value. *)
Definition ToString (v : value) : string :=
  match v with
  | VUndefined => "undefined"
  | VNull => "null"
  | VBool true => "true"
  | VBool false => "false"
  | VNum n => pretty (safe_value n)
  | VStr s => s
  end.

(** [v.toString()]: the property access throws on [undefined] and [null];
    every other value has the method, and it agrees with [String(v)]. *)
Definition toString (v : value) : completion string :=
  match v with
  | VUndefined =>
      Throws (new_TypeError "Cannot read properties of undefined (reading 'toString')")
  | VNull =>
      Throws (new_TypeError "Cannot read properties of null (reading 'toString')")
  | _ => Returns (ToString v)
  end.

(** The values on which a method can be called. *)
Definition has_methods (v : value) : bool :=
  match v with
  | VUndefined | VNull => false
  | _ => true
  end.

(** [String(error)], that is [Error.prototype.toString]. *)
Definition error_to_string (e : error) : string :=
  if decide (err_message e = "") then err_name e
  else if decide (err_name e = "") then err_message e
  else err_name e +:+ ": " +:+ err_message e.

(** [JSON.stringify(error)]: an [Error] has no enumerable own property. *)
Definition JSON_stringify_error (e : error) : string := "{}".

(** [error.stack], when it is truthy (a non-empty string). *)
Definition truthy_stack (e : error) : option string :=
  match err_stack e with
  | Some s => if decide (s = "") then None else Some s
  | None => None
  end.

(** [a[i] = v] on an array: an index past the end extends the array, the
    skipped slots stay empty. *)
Definition array_set {A} (a : list (option A)) (i : nat) (v : A) : list (option A) :=
  if decide (i < length a)%nat then <[i := Some v]> a
  else a ++ replicate (i - length a) None ++ [Some v].

(** The [invokeData] argument of the invoke methods: one argument map
    ([Array.isArray] is false) or an array of them. *)
Inductive invokeData :=
| Single (arg : object)
| Batch (args : list object).

End JS.
Import JS.

(** [obj[key] = v] on an object read by value: an existing property keeps
    its place in the enumeration order, a new one goes last. *)
Fixpoint set_property (obj : object) (key : string) (v : value) : object :=
  match obj with
  | [] => [(key, v)]
  | (k, old) :: rest =>
      if decide (k = key) then (k, v) :: rest
      else (k, old) :: set_property rest key v
  end.

(** ** The heap of allocated objects, the event channel and the log *)

Definition loc := positive.

(** What flows through the [TxsFinished] event and out of the invoke and
    query methods: one result, or an array of results. [TxStatus] is the
    result record of one underlying operation, opaque to the connectors. *)
Inductive payload (TxStatus : Type) :=
| One (r : TxStatus)
| Many (rs : list TxStatus).
Arguments One {TxStatus} r.
Arguments Many {TxStatus} rs.

(** Observable steps, in the order they happen. [TxsSubmitted] and
    [TxsFinished] are the two events of [Events.Connector]; [LogError] is a
    line written through the logger; [CallSettled i] records that the promise
    of the [i]-th underlying call of a batch settled. *)
Inductive event (TxStatus : Type) :=
| TxsSubmitted (count : Z)
| TxsFinished (txResults : payload TxStatus)
| LogError (msg : string)
| CallSettled (i : nat).
Arguments TxsSubmitted {TxStatus} count.
Arguments TxsFinished {TxStatus} txResults.
Arguments LogError {TxStatus} msg.
Arguments CallSettled {TxStatus} i.

Record world (TxStatus T : Type) := mkWorld {
  this : T;
  heap : gmap loc object;
  events : list (event TxStatus)
}.
Arguments mkWorld {TxStatus T} this heap events.
Arguments this {TxStatus T} w.
Arguments heap {TxStatus T} w.
Arguments events {TxStatus T} w.

(** Synchronous code over the world: state passing with exceptions. The
    world reached when an error is thrown is kept. *)
Definition M (TxStatus T A : Type) : Type :=
  world TxStatus T → completion A * world TxStatus T.

(** An [async] method, run until the promise it returned settles. *)
Definition async (TxStatus T A : Type) : Type :=
  world TxStatus T → settlement A * world TxStatus T.

Section Runtime.
Context {TxStatus T : Type}.
Local Abbreviation M := (M TxStatus T).

Definition ret {A} (a : A) : M A := λ w, (Returns a, w).
Definition throw {A} (e : error) : M A := λ w, (Throws e, w).
Definition bind {A B} (m : M A) (k : A → M B) : M B :=
  λ w, match m w with
       | (Returns a, w') => k a w'
       | (Throws e, w') => (Throws e, w')
       end.
(** [try { body } catch (error) { handler }] *)
Definition try_catch {A} (body : M A) (handler : error → M A) : M A :=
  λ w, match body w with
       | (Returns a, w') => (Returns a, w')
       | (Throws e, w') => handler e w'
       end.
Definition lift {A} (c : completion A) : M A := λ w, (c, w).
(** [await p] for a promise that settles as [s]. *)
Definition await {A} (s : settlement A) : M A :=
  match s with
  | Fulfilled a => ret a
  | Rejected e => throw e
  end.
(** The body of an [async] method decides how its promise settles. *)
Definition async_fn {A} (body : M A) : async TxStatus T A :=
  λ w, let '(c, w') := body w in (settle c, w').

Definition emit (e : event TxStatus) : M unit :=
  λ w, (Returns tt, mkWorld (this w) (heap w) (events w ++ [e])).
Definition get_this : M T := λ w, (Returns (this w), w).
Definition set_this (t : T) : M unit :=
  λ w, (Returns tt, mkWorld t (heap w) (events w)).
(** The object literal [{}]: a new empty object at an unused reference. *)
Definition new_object : M loc :=
  λ w, let l := fresh (dom (heap w)) in
       (Returns l, mkWorld (this w) (<[l := []]> (heap w)) (events w)).
End Runtime.

(** Sequencing is written [x ← m; k] and [m;; k]. *)
Global Instance M_ret {TxStatus T} : MRet (M TxStatus T) := @ret TxStatus T.
Global Instance M_bind {TxStatus T} : MBind (M TxStatus T) :=
  λ A B k m, bind m k.

(** ** blockchain-connector.js *)

Record BlockchainConnectorFields := mkBase {
  workerIndex : Z;
  bcType : string
}.

(** A class that extends [BlockchainConnector] carries its fields. *)
Class Extends (T : Type) := super : T → BlockchainConnectorFields.
Global Instance base_extends : Extends BlockchainConnectorFields := λ t, t.

Module BlockchainConnector.
Section Methods.
Context {TxStatus T : Type} `{!Extends T}.
Local Abbreviation M := (M TxStatus T).
Local Abbreviation async := (async TxStatus T).

Definition constructor (workerIndex : Z) (bcType : string) : BlockchainConnectorFields :=
  mkBase workerIndex bcType.

Definition _onTxsSubmitted (count : Z) : M unit :=
  emit (TxsSubmitted count).

Definition _onTxsFinished (txResults : payload TxStatus) : M unit :=
  emit (TxsFinished txResults).

Definition getType : M string :=
  t ← get_this; ret (bcType (super t)).

Definition getWorkerIndex : M Z :=
  t ← get_this; ret (workerIndex (super t)).

Definition not_implemented (operation : string) : error :=
  new_Error (operation +:+ " is not implemented for this blockchain connector").

Definition init (workerInit : bool) : async unit :=
  async_fn (throw (not_implemented "init")).

Definition installSmartContract : async unit :=
  async_fn (throw (not_implemented "installSmartContract")).

(** [for (let i = 0; i < number; i++) { result[i] = {}; }], unrolled at most
    [fuel] times. *)
Fixpoint for_loop (fuel : nat) (i number : Z) (result : list (option loc))
  : M (list (option loc)) :=
  match fuel with
  | O => ret result
  | S fuel' =>
      if decide (i < number) then
        o ← new_object;
        for_loop fuel' (i + 1) number (array_set result (Z.to_nat i) o)
      else ret result
  end.

Definition prepareWorkerArguments (number : Z) : async (list (option loc)) :=
  async_fn (for_loop (Z.to_nat number) 0 number []).

Definition getContext {Args : Type} (roundIndex : Z) (args : Args) : async loc :=
  async_fn (throw (not_implemented "getContext")).

Definition releaseContext : async unit :=
  async_fn (throw (not_implemented "releaseContext")).

Definition invokeSmartContract (contractID contractVer : string)
    (args : invokeData) (timeout : Z) : async (payload TxStatus) :=
  async_fn (throw (not_implemented "invokeSmartContract")).

Definition querySmartContract (contractID contractVer : string)
    (args : invokeData) (timeout : Z) : async (payload TxStatus) :=
  async_fn (throw (not_implemented "querySmartContract")).

Definition queryState (contractID contractVer key fcn : string)
  : async (payload TxStatus) :=
  async_fn (throw (not_implemented "queryState")).
End Methods.
End BlockchainConnector.

(** ** The FISCO BCOS connector *)

(** Second positional argument handed to the invoke strategy: the array the
    normalisation built, or the bare lookup key of [queryState]. *)
Inductive call_args :=
| FcArgs (fcArgs : list string)
| Key (key : string).

Record FiscoBcosConnectorFields (settings : Type) := mkFisco {
  base : BlockchainConnectorFields;
  workspaceRoot : string;
  fiscoBcosSettings : settings;
  clientIdx : Z;
  context : option loc
}.
Arguments mkFisco {settings} base workspaceRoot fiscoBcosSettings clientIdx context.
Arguments base {settings} f.
Arguments workspaceRoot {settings} f.
Arguments fiscoBcosSettings {settings} f.
Arguments clientIdx {settings} f.
Arguments context {settings} f.

Global Instance fisco_extends {settings} : Extends (FiscoBcosConnectorFields settings) := base.

(** [this.context = c] *)
Definition set_context {settings} (c : option loc) (t : FiscoBcosConnectorFields settings)
  : FiscoBcosConnectorFields settings :=
  mkFisco (base t) (workspaceRoot t) (fiscoBcosSettings t) (clientIdx t) c.

(** The part of the parsed [fisco-bcos] settings the constructor looks
    into: an optional [network] section holding an optional [authentication]
    object. [N] and [R] stand for whatever else the document holds. *)
Record NetworkSection (N : Type) := mkNetwork {
  authentication : option object;
  network_rest : N
}.
Arguments mkNetwork {N} authentication network_rest.
Arguments authentication {N} n.
Arguments network_rest {N} n.

Record SettingsDocument (N R : Type) := mkSettings {
  network : option (NetworkSection N);
  settings_rest : R
}.
Arguments mkSettings {N R} network settings_rest.
Arguments network {N R} s.
Arguments settings_rest {N R} s.

Module FiscoBcosConnector.
Section Methods.
Context {TxStatus settings : Type}.
Local Abbreviation T := (FiscoBcosConnectorFields settings).
Local Abbreviation M := (M TxStatus T).
Local Abbreviation async := (async TxStatus T).

(** The strategy modules the connector delegates to ([./installSmartContract]
    and [./invokeSmartContract]); each [run] returns a promise, given here by
    the way it settles. In [invokeSmartContractImpl_run] the function name is
    [None] for [null], and the last argument is [None] when the call site
    passes no sixth argument. *)
Variable installSmartContractImpl_run : settings → string → settlement unit.
Variable invokeSmartContractImpl_run :
  settings → string → option string → call_args → string → option bool →
  settlement TxStatus.

(** The settings and the workspace root come from the configuration
    utilities, whose results are taken as given. *)
Definition constructor (workerIndex : Z) (bcType : string)
    (workspace : string) (parsed : settings) : T :=
  mkFisco (BlockchainConnector.constructor workerIndex bcType)
          workspace parsed workerIndex None.

Definition commLogger_error (msg : string) : M unit := emit (LogError msg).

Definition init : async unit :=
  async_fn (await (Fulfilled tt)).

Definition installSmartContract : async unit :=
  async_fn (
    t ← get_this;
    let fiscoBcosSettings := fiscoBcosSettings t in
    try_catch
      (await (installSmartContractImpl_run fiscoBcosSettings (workspaceRoot t)))
      (λ error,
         commLogger_error
           ("FISCO BCOS smart contract install failed: " +:+
            match truthy_stack error with
            | Some stack => stack
            | None => error_to_string error
            end);;
         throw error)).

Definition getContext {Args : Type} (roundIndex : Z) (args : Args) : async (option loc) :=
  async_fn (
    o ← new_object;
    t ← get_this;
    set_this (set_context (Some o) t);;
    t ← get_this;
    ret (context t)).

Definition releaseContext : async unit :=
  async_fn (
    t ← get_this;
    set_this (set_context None t)).

(** A loop whose body updates local variables and may throw. *)
Fixpoint foldM {A S} (f : S → A → M S) (s : S) (l : list A) : M S :=
  match l with
  | [] => ret s
  | x :: rest => s' ← f s x; foldM f s' rest
  end.

(** One turn of [for (let key in arg)] on the locals [fcn] and [fcArgs]. *)
Definition for_key (arg : object) (locals : option string * list string)
    (key : string) : M (option string * list string) :=
  let '(fcn, fcArgs) := locals in
  if decide (key = "transaction_type") then
    s ← lift (toString (get arg key));
    ret (Some s, fcArgs)
  else
    s ← lift (toString (get arg key));
    ret (fcn, fcArgs ++ [s]).

(** [let fcn = null; let fcArgs = []; for (let key in arg) { ... }] *)
Definition normalize (arg : object) : M (option string * list string) :=
  foldM (for_key arg) (None, []) (keys arg).

(** The callback of [invocations.forEach], on the local [promises]. *)
Definition forEach_callback (contractID : string)
    (promises : list (settlement TxStatus)) (arg : object)
  : M (list (settlement TxStatus)) :=
  locals ← normalize arg;
  let '(fcn, fcArgs) := locals in
  BlockchainConnector._onTxsSubmitted 1;;
  t ← get_this;
  ret (promises ++
       [invokeSmartContractImpl_run (fiscoBcosSettings t) contractID fcn
          (FcArgs fcArgs) (workspaceRoot t) None]).

(** [Promise.all(promises)], driven by the order [sched] in which the
    underlying promises settle. [values] and [remaining] are the values array
    and the count of elements still awaited; [settled] holds the calls that
    have settled. An entry of [sched] that names no call of the batch, or a
    call that has settled already, changes nothing. The result is [None] when
    [sched] ends with the aggregate still pending. *)
Fixpoint Promise_all_go (promises : list (settlement TxStatus)) (sched : list nat)
    (settled : gset nat) (values : list (option TxStatus)) (remaining : nat)
  : M (option (settlement (list TxStatus))) :=
  match sched with
  | [] => ret None
  | i :: sched' =>
      if decide (i ∈ settled) then
        Promise_all_go promises sched' settled values remaining
      else
        match promises !! i with
        | None => Promise_all_go promises sched' settled values remaining
        | Some (Fulfilled r) =>
            emit (CallSettled i);;
            let values' := <[i := Some r]> values in
            if decide (remaining = 1%nat) then
              ret (Some (Fulfilled (omap id values')))
            else
              Promise_all_go promises sched' ({[i]} ∪ settled) values'
                             (remaining - 1)
        | Some (Rejected e) =>
            emit (CallSettled i);;
            ret (Some (Rejected e))
        end
  end.

Definition Promise_all (promises : list (settlement TxStatus)) (sched : list nat)
  : M (option (settlement (list TxStatus))) :=
  match promises with
  | [] => ret (Some (Fulfilled []))
  | _ => Promise_all_go promises sched ∅
           (replicate (length promises) None) (length promises)
  end.

(** The [catch] block of [invokeSmartContract]. *)
Definition invoke_catch {A} (error : JS.error) : M A :=
  commLogger_error
    ("FISCO BCOS smart contract invoke failed: " +:+
     match truthy_stack error with
     | Some stack => stack
     | None => JSON_stringify_error error
     end);;
  throw error.

(** [invokeSmartContract], run until its promise settles ([Some]) or until
    nothing more can happen ([None]: an underlying call never settles). *)
Definition invokeSmartContract (contractID contractVer : string)
    (invokeData : JS.invokeData) (timeout : Z) (sched : list nat)
  : world TxStatus T → option (settlement (payload TxStatus)) * world TxStatus T :=
  λ w,
  let invocations :=
    match invokeData with
    | Single arg => [arg]
    | Batch args => args
    end in
  let finish (r : completion (payload TxStatus) * world TxStatus T) :=
    (Some (settle r.1), r.2) in
  match foldM (forEach_callback contractID) [] invocations w with
  | (Throws error, w1) => finish (invoke_catch error w1)
  | (Returns promises, w1) =>
      match Promise_all promises sched w1 with
      | (Returns None, w2) => (None, w2)
      | (Returns (Some (Fulfilled results)), w2) =>
          finish ((BlockchainConnector._onTxsFinished (Many results);;
                   ret (Many results)) w2)
      | (Returns (Some (Rejected error)), w2) => finish (invoke_catch error w2)
      | (Throws error, w2) => finish (invoke_catch error w2)
      end
  end.

Definition queryState (contractID contractVer key fcn : string)
  : async (payload TxStatus) :=
  async_fn (
    try_catch
      (BlockchainConnector._onTxsSubmitted 1;;
       t ← get_this;
       result ← await (invokeSmartContractImpl_run (fiscoBcosSettings t)
                         contractID (Some fcn) (Key key) (workspaceRoot t)
                         (Some true));
       BlockchainConnector._onTxsFinished (One result);;
       ret (One result))
      (λ error,
         commLogger_error
           ("FISCO BCOS smart contract query failed: " +:+
            match truthy_stack error with
            | Some stack => stack
            | None => error_to_string error
            end);;
         throw error)).

(** The strategy module [./generateRawTransactions]. *)
Variable generateRawTransactionImpl_run :
  settings → string → string → object → string → settlement TxStatus.

Definition generateRawTransaction (contractID : string) (arg : object)
    (file : string) : async (payload TxStatus) :=
  async_fn (
    BlockchainConnector._onTxsSubmitted 1;;
    t ← get_this;
    result ← await (generateRawTransactionImpl_run (fiscoBcosSettings t)
                      (workspaceRoot t) contractID arg file);
    BlockchainConnector._onTxsFinished (One result);;
    ret (One result)).

(** The loop of the constructor over [network.authentication]:
    [for (let k in authentication) authentication[k] = resolvePath(authentication[k])].
    [resolvePath] is [CaliperUtils.resolvePath], which may throw; the loop,
    and the constructor with it, then ends with that error. [ks] are the
    keys still to visit. *)
Fixpoint resolve_keys (resolvePath : value → completion value)
    (ks : list string) (authentication : object) : completion object :=
  match ks with
  | [] => Returns authentication
  | k :: rest =>
      match resolvePath (get authentication k) with
      | Returns path =>
          resolve_keys resolvePath rest (set_property authentication k path)
      | Throws e => Throws e
      end
  end.

Definition resolve_authentication (resolvePath : value → completion value)
    (authentication : object) : completion object :=
  resolve_keys resolvePath (keys authentication) authentication.

(** The constructor's update of the settings: the loop runs when the
    document has a [network] section with an [authentication] object. *)
Definition resolve_settings {N R : Type} (resolvePath : value → completion value)
    (document : SettingsDocument N R) : completion (SettingsDocument N R) :=
  match network document with
  | Some net =>
      match authentication net with
      | Some auth =>
          match resolve_authentication resolvePath auth with
          | Returns resolved =>
              Returns (mkSettings
                         (Some (mkNetwork (Some resolved) (network_rest net)))
                         (settings_rest document))
          | Throws e => Throws e
          end
      | None => Returns document
      end
  | None => Returns document
  end.

End Methods.
End FiscoBcosConnector.

(** ** Calling a method of the base class by name *)

Inductive method :=
| m_onTxsSubmitted
| m_onTxsFinished
| m_getType
| m_getWorkerIndex
| m_init
| m_installSmartContract
| m_prepareWorkerArguments
| m_getContext
| m_releaseContext
| m_invokeSmartContract
| m_querySmartContract
| m_queryState.

Global Instance method_eq_dec : EqDecision method.
Proof. solve_decision. Defined.

(** Every method the class [BlockchainConnector] declares. *)
Definition all_methods : list method :=
  [m_onTxsSubmitted; m_onTxsFinished; m_getType; m_getWorkerIndex; m_init;
   m_installSmartContract; m_prepareWorkerArguments; m_getContext;
   m_releaseContext; m_invokeSmartContract; m_querySmartContract;
   m_queryState].

Definition method_name (m : method) : string :=
  match m with
  | m_onTxsSubmitted => "_onTxsSubmitted"
  | m_onTxsFinished => "_onTxsFinished"
  | m_getType => "getType"
  | m_getWorkerIndex => "getWorkerIndex"
  | m_init => "init"
  | m_installSmartContract => "installSmartContract"
  | m_prepareWorkerArguments => "prepareWorkerArguments"
  | m_getContext => "getContext"
  | m_releaseContext => "releaseContext"
  | m_invokeSmartContract => "invokeSmartContract"
  | m_querySmartContract => "querySmartContract"
  | m_queryState => "queryState"
  end.

(** The actual parameters of a call, one field per formal parameter. *)
Record arguments (TxStatus : Type) := mkArguments {
  a_count : Z;
  a_txResults : payload TxStatus;
  a_workerInit : bool;
  a_number : Z;
  a_roundIndex : Z;
  a_args : value;
  a_contractID : string;
  a_contractVer : string;
  a_invokeData : invokeData;
  a_timeout : Z;
  a_key : string;
  a_fcn : string
}.
Arguments mkArguments {TxStatus}.
Arguments a_count {TxStatus} a.
Arguments a_txResults {TxStatus} a.
Arguments a_workerInit {TxStatus} a.
Arguments a_number {TxStatus} a.
Arguments a_roundIndex {TxStatus} a.
Arguments a_args {TxStatus} a.
Arguments a_contractID {TxStatus} a.
Arguments a_contractVer {TxStatus} a.
Arguments a_invokeData {TxStatus} a.
Arguments a_timeout {TxStatus} a.
Arguments a_key {TxStatus} a.
Arguments a_fcn {TxStatus} a.

Definition thrown {A W} (r : completion A * W) : option error :=
  match r.1 with
  | Throws e => Some e
  | Returns _ => None
  end.

Definition rejected {A W} (r : settlement A * W) : option error :=
  match r.1 with
  | Rejected e => Some e
  | Fulfilled _ => None
  end.

(** The error with which a call of method [m] on a plain
    [BlockchainConnector] fails: thrown by a synchronous method, or the
    reason the promise of an [async] method rejects with; [None] when the
    call succeeds. *)
Definition failure {TxStatus} (m : method) (a : arguments TxStatus)
    (w : world TxStatus BlockchainConnectorFields) : option error :=
  match m with
  | m_onTxsSubmitted => thrown (BlockchainConnector._onTxsSubmitted (a_count a) w)
  | m_onTxsFinished => thrown (BlockchainConnector._onTxsFinished (a_txResults a) w)
  | m_getType => thrown (BlockchainConnector.getType w)
  | m_getWorkerIndex => thrown (BlockchainConnector.getWorkerIndex w)
  | m_init => rejected (BlockchainConnector.init (a_workerInit a) w)
  | m_installSmartContract => rejected (BlockchainConnector.installSmartContract w)
  | m_prepareWorkerArguments =>
      rejected (BlockchainConnector.prepareWorkerArguments (a_number a) w)
  | m_getContext =>
      rejected (BlockchainConnector.getContext (a_roundIndex a) (a_args a) w)
  | m_releaseContext => rejected (BlockchainConnector.releaseContext w)
  | m_invokeSmartContract =>
      rejected (BlockchainConnector.invokeSmartContract (a_contractID a)
                  (a_contractVer a) (a_invokeData a) (a_timeout a) w)
  | m_querySmartContract =>
      rejected (BlockchainConnector.querySmartContract (a_contractID a)
                  (a_contractVer a) (a_invokeData a) (a_timeout a) w)
  | m_queryState =>
      rejected (BlockchainConnector.queryState (a_contractID a)
                  (a_contractVer a) (a_key a) (a_fcn a) w)
  end.

(** The methods whose body is a single [throw new Error(...)]. *)
Definition abstract_methods : list method :=
  [m_init; m_installSmartContract; m_getContext; m_releaseContext;
   m_invokeSmartContract; m_querySmartContract; m_queryState].

(** A method that fails on every call with an error naming it. *)
Definition fails_unimplemented (TxStatus : Type) (m : method) : Prop :=
  ∀ (a : arguments TxStatus) w,
    ∃ e, failure m a w = Some e ∧
         err_message e =
           method_name m +:+ " is not implemented for this blockchain connector".

(** ** The properties expected of the connectors, as predicates *)

Definition is_submitted {TxStatus} (e : event TxStatus) : bool :=
  match e with
  | TxsSubmitted _ => true
  | _ => false
  end.

Definition is_finished {TxStatus} (e : event TxStatus) : bool :=
  match e with
  | TxsFinished _ => true
  | _ => false
  end.

Definition is_call_settled {TxStatus} (e : event TxStatus) : bool :=
  match e with
  | CallSettled _ => true
  | _ => false
  end.

(** What the harness sees on the event channel: the events of the two
    kinds it subscribes to. *)
Definition channel {TxStatus} (evs : list (event TxStatus)) : list (event TxStatus) :=
  filter (λ e, is_submitted e || is_finished e) evs.

(** The function name and the positional arguments an argument map stands
    for, in the words of the specification: the string coercion of the value
    under [transaction_type], and the string coercions of the other values,
    in enumeration order. *)
Definition function_name (arg : object) : option string :=
  if decide ("transaction_type" ∈ keys arg)
  then Some (ToString (get arg "transaction_type"))
  else None.

Definition positional_arguments (arg : object) : list string :=
  (λ key, ToString (get arg key)) <$>
    filter (λ key, key ≠ "transaction_type") (keys arg).

(** Fail-together, in the words of the specification: [new] are the events
    of one batch call of size [n] that ended as [r]. One [TxsFinished] event
    with [n] results is raised, and the batch rejects only when each of its
    [n] calls has settled. *)
Definition fail_together {TxStatus} (n : nat) (new : list (event TxStatus))
    (r : option (settlement (payload TxStatus))) : Prop :=
  (∃ results, filter (λ e, is_finished e) new = [TxsFinished (Many results)] ∧
              length results = n) ∧
  (∀ e, r = Some (Rejected e) → ∀ i, (i < n)%nat → CallSettled i ∈ new).

(** Submitted-then-finished, in the words of the specification: on its
    channel, one batch call of size [n] with events [new] raises [n] times
    [TxsSubmitted(1)] and then one [TxsFinished] event, whose payload is a
    list of [n] results. *)
Definition submitted_then_finished {TxStatus} (n : nat)
    (new : list (event TxStatus)) : Prop :=
  ∃ results,
    channel new = replicate n (TxsSubmitted 1) ++ [TxsFinished (Many results)] ∧
    length results = n.

(** The single-element invocation that [queryState] is compared with: the
    query function and the key folded into one argument map. *)
Definition folded_query (key fcn : string) : invokeData :=
  Single [("transaction_type", VStr fcn); ("key", VStr key)].

(** An argument map on which the normalisation can run to its end: each
    value has a [toString] method. *)
Definition callable_values (arg : object) : bool :=
  forallb (λ key, has_methods (get arg key)) (keys arg).

(** The underlying call the connector issues for one argument map of a
    batch, given by the way its promise settles. *)
Definition underlying_call {TxStatus settings}
    (run : settings → string → option string → call_args → string →
           option bool → settlement TxStatus)
    (t : FiscoBcosConnectorFields settings) (contractID : string) (arg : object)
  : settlement TxStatus :=
  run (fiscoBcosSettings t) contractID (function_name arg)
      (FcArgs (positional_arguments arg)) (workspaceRoot t) None.

(** The slots of the values array of [Promise.all] that are still empty. *)
Definition count_none {A} (values : list (option A)) : nat :=
  length (filter (λ x, x = None) values).

(** What holds of the state of [Promise.all] between two settlements: the
    filled slots of the values array are those of the calls that settled, each
    with the value its call fulfilled with, and [remaining] counts the empty
    slots. *)
Definition all_invariant {TxStatus} (promises : list (settlement TxStatus))
    (settled : gset nat) (values : list (option TxStatus)) (remaining : nat) : Prop :=
  length values = length promises ∧
  (∀ j, j ∈ settled ↔ ∃ r, values !! j = Some (Some r)) ∧
  (∀ j r, values !! j = Some (Some r) → promises !! j = Some (Fulfilled r)) ∧
  remaining = count_none values.

(** The ways one call of [invokeSmartContract] on a batch of [n] argument
    maps can go, with the events it adds: the normalisation of element [k]
    throws; some underlying call never settles; an underlying call rejects;
    all underlying calls fulfil. [promises] are the underlying calls. *)
Inductive batch_run {TxStatus} (n : nat) (promises : list (settlement TxStatus))
  : option (settlement (payload TxStatus)) → list (event TxStatus) → Prop :=
| batch_threw (k : nat) (e : error) (msg : string) :
    (k < n)%nat →
    batch_run n promises (Some (Rejected e))
      (replicate k (TxsSubmitted 1) ++ [LogError msg])
| batch_pending (order : list nat) :
    length promises = n →
    batch_run n promises None
      (replicate n (TxsSubmitted 1) ++ (CallSettled <$> order))
| batch_rejected (order : list nat) (i : nat) (e : error) (msg : string) :
    length promises = n →
    promises !! i = Some (Rejected e) →
    batch_run n promises (Some (Rejected e))
      (replicate n (TxsSubmitted 1) ++ (CallSettled <$> order) ++ [LogError msg])
| batch_fulfilled (order : list nat) (results : list TxStatus) :
    promises = Fulfilled <$> results →
    length results = n →
    batch_run n promises (Some (Fulfilled (Many results)))
      (replicate n (TxsSubmitted 1) ++ (CallSettled <$> order) ++
       [TxsFinished (Many results)]).

(** The argument maps of a call, as the method lays them out. *)
Definition invocations_of (invokeData : invokeData) : list object :=
  match invokeData with
  | Single arg => [arg]
  | Batch args => args
  end.

(** The line the [catch] block of [invokeSmartContract] logs for [e]. *)
Definition invoke_failed_line (e : error) : string :=
  "FISCO BCOS smart contract invoke failed: " +:+
  default (JSON_stringify_error e) (truthy_stack e).

Definition is_log_error {TxStatus} (e : event TxStatus) : bool :=
  match e with
  | LogError _ => true
  | _ => false
  end.

(** The constructor of the FISCO BCOS connector on a settings document:
    the authentication paths are resolved, the context starts undefined;
    when a path cannot be resolved the constructor throws. *)
Definition construct {N R : Type} (workerIndex : Z) (bcType : string)
    (workspace : string) (resolvePath : value → completion value)
    (document : SettingsDocument N R)
  : completion (FiscoBcosConnectorFields (SettingsDocument N R)) :=
  match FiscoBcosConnector.resolve_settings resolvePath document with
  | Returns settings =>
      Returns (FiscoBcosConnector.constructor workerIndex bcType workspace
                 settings)
  | Throws e => Throws e
  end.

(** The calls a worker makes around its rounds, and a run of them in
    order. Each call is given with what its promise fulfils or rejects with
    ([None] stands for [undefined]). *)
Inductive context_call :=
| CallGetContext (roundIndex : Z) (args : value)
| CallReleaseContext.

Definition is_get_context (c : context_call) : bool :=
  match c with
  | CallGetContext _ _ => true
  | CallReleaseContext => false
  end.

Definition do_context_call {TxStatus settings} (c : context_call)
    (w : world TxStatus (FiscoBcosConnectorFields settings))
  : settlement (option loc) * world TxStatus (FiscoBcosConnectorFields settings) :=
  match c with
  | CallGetContext roundIndex args =>
      FiscoBcosConnector.getContext roundIndex args w
  | CallReleaseContext =>
      match FiscoBcosConnector.releaseContext w with
      | (Fulfilled _, w') => (Fulfilled None, w')
      | (Rejected e, w') => (Rejected e, w')
      end
  end.

Fixpoint do_context_calls {TxStatus settings} (cs : list context_call)
    (w : world TxStatus (FiscoBcosConnectorFields settings))
  : list (settlement (option loc)) *
    world TxStatus (FiscoBcosConnectorFields settings) :=
  match cs with
  | [] => ([], w)
  | c :: rest =>
      let '(s, w1) := do_context_call c w in
      let '(ss, w2) := do_context_calls rest w1 in
      (s :: ss, w2)
  end.

(** ** Sample strategies and worlds *)

Module Sample.

Definition connector : FiscoBcosConnectorFields unit :=
  FiscoBcosConnector.constructor 0 "fisco-bcos" "/workspace" tt.

Definition w0 : world string (FiscoBcosConnectorFields unit) :=
  mkWorld connector ∅ [].

Definition boom : error := new_Error "boom".

(** An invoke strategy that fails for the function [fail] and otherwise
    answers with the name of the function it was asked to call. *)
Definition run_named (s : unit) (contractID : string) (fcn : option string)
    (a : call_args) (root : string) (readOnly : option bool) : settlement string :=
  match fcn with
  | Some f => if decide (f = "fail") then Rejected boom else Fulfilled f
  | None => Fulfilled "null"
  end.

(** An invoke strategy that gives the same answer to every call. *)
Definition run_constant (s : unit) (contractID : string) (fcn : option string)
    (a : call_args) (root : string) (readOnly : option bool) : settlement string :=
  Fulfilled "done".

Definition install_failing (s : unit) (root : string) : settlement unit :=
  Rejected (new_Error "deploy failed").

Definition call (f : string) : object :=
  [("transaction_type", VStr f); ("to", VStr "X"); ("amount", VStr "10")].

Definition transfer : object := call "transferFunds".

Definition some_arguments : arguments string :=
  mkArguments 1 (Many []) false 0 0 VUndefined "" "" (Batch []) 0 "" "".

Definition base_world : world string BlockchainConnectorFields :=
  mkWorld (BlockchainConnector.constructor 0 "fisco-bcos") ∅ [].

(** A generate strategy that fails, and one that succeeds. *)
Definition generate_failing (s : unit) (root contractID : string)
    (arg : object) (file : string) : settlement string :=
  Rejected boom.

(** A resolver for paths given as strings: the empty path is refused, an
    absolute path is kept, a relative one is put under the workspace. What
    is not a string is refused as well. *)
Definition resolve_in_workspace (v : value) : completion value :=
  match v with
  | VStr path =>
      if decide (path = "") then
        Throws (new_Error "Util.resolvePath: Parameter is undefined")
      else if String.prefix "/" path then Returns v
      else Returns (VStr ("/workspace/" +:+ path))
  | _ => Throws (new_Error "Util.resolvePath: Parameter is undefined")
  end.

Definition certificates : object :=
  [("key", VStr "sdk/node.key"); ("cert", VStr "/etc/node.crt");
   ("ca", VStr "sdk/ca.crt")].

Definition certificates_with_empty_path : object :=
  [("key", VStr "sdk/node.key"); ("cert", VStr ""); ("ca", VStr "sdk/ca.crt")].

(** [transfer] with the reserved key last, and with other key names. *)
Definition transfer_reordered : object :=
  [("to", VStr "X"); ("amount", VStr "10");
   ("transaction_type", VStr "transferFunds")].

Definition transfer_renamed : object :=
  [("transaction_type", VStr "transferFunds"); ("recipient", VStr "X");
   ("value", VStr "10")].

End Sample.

(** * Properties *)

(** ** The base connector *)

Section BaseConnector.
Context {TxStatus T : Type}.
Implicit Types w : world TxStatus T.

Lemma array_set_push {A} (a : list (option A)) (v : A) :
  array_set a (length a) v = a ++ [Some v].
Proof.
  unfold array_set. case_decide; [lia|].
  by rewrite Nat.sub_diag.
Qed.

Lemma elem_of_dom_insert_same (h : gmap loc object) (l : loc) (o : object) :
  l ∈ dom (<[l := o]> h).
Proof. apply elem_of_dom. rewrite lookup_insert_eq. by eexists. Qed.

Lemma elem_of_dom_insert_old (h : gmap loc object) (l l' : loc) (o : object) :
  l' ∈ dom h → l' ∈ dom (<[l := o]> h).
Proof. intros Hd. by apply (dom_insert_subseteq h l o). Qed.

(** The counting loop of [prepareWorkerArguments]: with [number - i] turns
    left it appends that many new empty objects and touches nothing else. *)
Lemma for_loop_spec (fuel : nat) :
  ∀ (i number : Z) (result : list (option loc)) w,
    0 ≤ i → Z.to_nat i = length result → fuel = Z.to_nat (number - i) →
    ∃ (locs : list loc) w',
      BlockchainConnector.for_loop fuel i number result w
        = (Returns (result ++ (Some <$> locs)), w') ∧
      length locs = fuel ∧
      this w' = this w ∧ events w' = events w ∧
      NoDup locs ∧
      (∀ l, l ∈ locs → (l ∉ dom (heap w)) ∧ heap w' !! l = Some []) ∧
      (∀ l, l ∈ dom (heap w) → heap w' !! l = heap w !! l).
Proof.
  induction fuel as [|fuel IH]; intros i number result w Hi Hlen Hfuel.
  - exists [], w. simpl. rewrite app_nil_r.
    split_and!; [done..|apply NoDup_nil_2| |done].
    intros l Hl. by apply elem_of_nil in Hl.
  - simpl. case_decide as Hlt; [|lia].
    unfold mbind, M_bind, bind at 1. unfold new_object at 1. simpl.
    set (l := fresh (dom (heap w))) in *.
    set (w1 := mkWorld (this w) (<[l:=[]]> (heap w)) (events w)).
    assert (Hfresh : l ∉ dom (heap w)) by apply is_fresh.
    rewrite Hlen, array_set_push.
    destruct (IH (i + 1) number (result ++ [Some l]) w1) as
      (locs & w' & Heq & Hn & Hthis & Hev & Hnd & Hnew & Hold).
    { lia. } { rewrite length_app. simpl. lia. } { lia. }
    exists (l :: locs), w'. rewrite Heq.
    assert (Hl : heap w' !! l = Some []).
    { rewrite Hold; simpl; [apply lookup_insert_eq|].
      apply elem_of_dom_insert_same. }
    split; [by rewrite <- app_assoc|].
    split; [simpl; lia|]. split; [done|]. split; [done|].
    split.
    { apply NoDup_cons. split; [|done].
      intros Hin. destruct (Hnew l Hin) as [Hnot _].
      apply Hnot. apply elem_of_dom_insert_same. }
    split.
    + intros l' Hin. apply elem_of_cons in Hin as [->|Hin]; [done|].
      destruct (Hnew l' Hin) as [Hnot Hlk]. split; [|done].
      intros Hd. apply Hnot. by apply elem_of_dom_insert_old.
    + intros l' Hd. rewrite Hold.
      * simpl. apply lookup_insert_ne. by intros ->.
      * by apply elem_of_dom_insert_old.
Qed.

(** The loop leaves through its test, not for want of fuel: more fuel than
    [number - i] turns changes nothing. *)
Lemma for_loop_fuel (fuel extra : nat) :
  ∀ (i number : Z) (result : list (option loc)) w,
    fuel = Z.to_nat (number - i) →
    BlockchainConnector.for_loop (fuel + extra) i number result w
      = BlockchainConnector.for_loop fuel i number result w.
Proof.
  induction fuel as [|fuel IH]; intros i number result w Hfuel.
  - destruct extra as [|extra]; [done|]. simpl.
    case_decide; [lia|done].
  - simpl. case_decide; [|done].
    unfold mbind, M_bind, bind. destruct (new_object w) as [[o|e] w1]; [|done].
    apply IH. lia.
Qed.

End BaseConnector.

(** C6. For every [workerCount >= 0] the default [prepareWorkerArguments]
    fulfils with an array of exactly [workerCount] slots, slot [i] holding a
    reference to an empty object created for worker [i]; the objects are
    pairwise distinct and new, and nothing else in the world changes. *)
Theorem prepareWorkerArguments_default {TxStatus T : Type}
    (workerCount : Z) (w : world TxStatus T) :
  0 ≤ workerCount →
  ∃ (locs : list loc) (w' : world TxStatus T),
    BlockchainConnector.prepareWorkerArguments workerCount w
      = (Fulfilled (Some <$> locs), w') ∧
    length locs = Z.to_nat workerCount ∧
    NoDup locs ∧
    (∀ i, (i < Z.to_nat workerCount)%nat →
          ∃ l, locs !! i = Some l ∧ (l ∉ dom (heap w)) ∧ heap w' !! l = Some []) ∧
    this w' = this w ∧ events w' = events w.
Proof.
  intros Hpos.
  destruct (for_loop_spec (Z.to_nat workerCount) 0 workerCount [] w)
    as (locs & w' & Heq & Hlen & Hthis & Hev & Hnd & Hnew & _);
    [lia | done | f_equal; lia |].
  exists locs, w'.
  unfold BlockchainConnector.prepareWorkerArguments, async_fn.
  rewrite Heq. simpl.
  split_and!; try done.
  intros i Hi.
  destruct (lookup_lt_is_Some_2 locs i) as [l Hl]; [lia|].
  exists l. split; [done|].
  apply Hnew. by eapply list_elem_of_lookup_2.
Qed.

Lemma prepareWorkerArguments_default_witness :
  0 ≤ 3 ∧
  ∃ (locs : list loc) (w' : world string BlockchainConnectorFields),
    BlockchainConnector.prepareWorkerArguments 3 Sample.base_world
      = (Fulfilled (Some <$> locs), w') ∧
    length locs = Z.to_nat 3 ∧
    NoDup locs ∧
    (∀ i, (i < Z.to_nat 3)%nat →
          ∃ l, locs !! i = Some l ∧ (l ∉ dom (heap Sample.base_world)) ∧
               heap w' !! l = Some []) ∧
    this w' = this Sample.base_world ∧ events w' = events Sample.base_world.
Proof.
  split; [lia|].
  apply (prepareWorkerArguments_default 3 Sample.base_world); lia.
Defined.

Example prepareWorkerArguments_three :
  (BlockchainConnector.prepareWorkerArguments 3 Sample.base_world).1
    = Fulfilled [Some 1%positive; Some 2%positive; Some 3%positive].
Proof. vm_compute. reflexivity. Qed.

Example prepareWorkerArguments_negative :
  (BlockchainConnector.prepareWorkerArguments (-2) Sample.base_world).1
    = Fulfilled [].
Proof. reflexivity. Qed.

(** Whatever the count, the default [prepareWorkerArguments] fulfils. *)
Lemma prepareWorkerArguments_fulfils {TxStatus T : Type}
    (number : Z) (w : world TxStatus T) :
  ∃ (result : list (option loc)) (w' : world TxStatus T),
    BlockchainConnector.prepareWorkerArguments number w = (Fulfilled result, w').
Proof.
  unfold BlockchainConnector.prepareWorkerArguments, async_fn.
  destruct (decide (0 ≤ number)) as [Hpos|Hneg].
  - destruct (for_loop_spec (Z.to_nat number) 0 number [] w)
      as (locs & w' & Heq & _); [lia | done | f_equal; lia |].
    rewrite Heq. by eexists _, _.
  - replace (Z.to_nat number) with 0%nat by lia. by eexists _, _.
Qed.

(** C4, as amended. Seven methods of the base connector are abstract:
    [init], [installSmartContract], [getContext], [releaseContext],
    [invokeSmartContract], [querySmartContract] and [queryState]. Each of
    them, on every call, rejects with an [Error] whose message is the name
    of that method followed by " is not implemented for this blockchain
    connector", and leaves the world as it was. The five other methods of
    the class do not fail: [prepareWorkerArguments] fulfils for every count,
    [getType] and [getWorkerIndex] return the fields set at construction,
    and [_onTxsSubmitted] and [_onTxsFinished] raise their event and
    return. *)
Theorem abstract_methods_reject {TxStatus T : Type} `{!Extends T}
    (w : world TxStatus T) :
  (∀ workerInit,
      BlockchainConnector.init workerInit w
        = (Rejected (new_Error "init is not implemented for this blockchain connector"), w)) ∧
  BlockchainConnector.installSmartContract w
    = (Rejected (new_Error "installSmartContract is not implemented for this blockchain connector"), w) ∧
  (∀ (Args : Type) roundIndex (args : Args),
      BlockchainConnector.getContext roundIndex args w
        = (Rejected (new_Error "getContext is not implemented for this blockchain connector"), w)) ∧
  BlockchainConnector.releaseContext w
    = (Rejected (new_Error "releaseContext is not implemented for this blockchain connector"), w) ∧
  (∀ contractID contractVer args timeout,
      BlockchainConnector.invokeSmartContract contractID contractVer args timeout w
        = (Rejected (new_Error "invokeSmartContract is not implemented for this blockchain connector"), w)) ∧
  (∀ contractID contractVer args timeout,
      BlockchainConnector.querySmartContract contractID contractVer args timeout w
        = (Rejected (new_Error "querySmartContract is not implemented for this blockchain connector"), w)) ∧
  (∀ contractID contractVer key fcn,
      BlockchainConnector.queryState contractID contractVer key fcn w
        = (Rejected (new_Error "queryState is not implemented for this blockchain connector"), w)) ∧
  (∀ number, ∃ (result : list (option loc)) (w' : world TxStatus T),
      BlockchainConnector.prepareWorkerArguments number w
        = (Fulfilled result, w')) ∧
  BlockchainConnector.getType w = (Returns (bcType (super (this w))), w) ∧
  BlockchainConnector.getWorkerIndex w
    = (Returns (workerIndex (super (this w))), w) ∧
  (∀ count,
      BlockchainConnector._onTxsSubmitted count w
        = (Returns tt,
           mkWorld (this w) (heap w) (events w ++ [TxsSubmitted count]))) ∧
  (∀ txResults,
      BlockchainConnector._onTxsFinished txResults w
        = (Returns tt,
           mkWorld (this w) (heap w) (events w ++ [TxsFinished txResults]))).
Proof.
  split_and!; try (by destruct w).
  intros number. apply prepareWorkerArguments_fulfils.
Qed.

(** The abstract methods are exactly the methods that fail on every call
    with an error naming them. *)
Lemma fails_unimplemented_iff (m : method) :
  fails_unimplemented string m ↔ m ∈ abstract_methods.
Proof.
  split.
  - intros Hfail.
    destruct (Hfail Sample.some_arguments Sample.base_world) as (e & He & _).
    destruct m; try discriminate He;
      unfold abstract_methods; repeat constructor.
  - intros Hin a w. unfold abstract_methods in Hin.
    repeat (apply elem_of_cons in Hin as [->|Hin]);
      [eexists; split; [reflexivity|reflexivity] ..|].
    by apply elem_of_nil in Hin.
Qed.

(** C4, as stated, fails: the base connector has no nine distinct methods
    that fail on every call with an error naming them; it has seven. *)
Lemma no_nine_unimplemented_methods :
  ¬ ∃ ms : list method,
      NoDup ms ∧ length ms = 9%nat ∧ ∀ m, m ∈ ms → fails_unimplemented string m.
Proof.
  intros (ms & Hnd & Hlen & Hall).
  assert (Hsub : ms ⊆ abstract_methods).
  { intros m Hm. apply fails_unimplemented_iff. by apply Hall. }
  pose proof (submseteq_length _ _ (NoDup_submseteq _ _ Hnd Hsub)) as Hle.
  rewrite Hlen in Hle. simpl in Hle. lia.
Qed.

(** The FISCO BCOS connector does not override [querySmartContract]. *)
Example querySmartContract_inherited :
  (BlockchainConnector.querySmartContract "contract" "v1"
     (Single Sample.transfer) 30 Sample.w0).1
    = Rejected (new_Error
        "querySmartContract is not implemented for this blockchain connector").
Proof. reflexivity. Qed.

Example prepareWorkerArguments_does_not_fail :
  failure m_prepareWorkerArguments Sample.some_arguments Sample.base_world = None.
Proof. reflexivity. Qed.

(** ** The FISCO BCOS connector: contexts and installation *)

Section FiscoContexts.
Context {TxStatus settings : Type}.
Implicit Types w : world TxStatus (FiscoBcosConnectorFields settings).

(** [getContext] creates an empty object at the next unused reference,
    stores the reference in [this.context] and returns it. *)
Lemma getContext_eq {Args : Type} (roundIndex : Z) (args : Args) w :
  FiscoBcosConnector.getContext roundIndex args w
    = (Fulfilled (Some (fresh (dom (heap w)))),
       mkWorld (set_context (Some (fresh (dom (heap w)))) (this w))
               (<[fresh (dom (heap w)) := []]> (heap w)) (events w)).
Proof. reflexivity. Qed.

Lemma releaseContext_eq w :
  FiscoBcosConnector.releaseContext w
    = (Fulfilled tt, mkWorld (set_context None (this w)) (heap w) (events w)).
Proof. reflexivity. Qed.

End FiscoContexts.

(** C7. [releaseContext] never fails, whatever the state of the connector
    (a context held or none): it fulfils and leaves [this.context] undefined,
    heap and events untouched. In the world it leaves, [getContext] fulfils
    with a reference to a new empty object, which becomes the connector's
    context. *)
Theorem releaseContext_then_getContext {TxStatus settings Args : Type}
    (w : world TxStatus (FiscoBcosConnectorFields settings))
    (roundIndex : Z) (args : Args) :
  ∃ w1,
    FiscoBcosConnector.releaseContext w = (Fulfilled tt, w1) ∧
    context (this w1) = None ∧ heap w1 = heap w ∧ events w1 = events w ∧
    ∃ l w2,
      FiscoBcosConnector.getContext roundIndex args w1 = (Fulfilled (Some l), w2) ∧
      context (this w2) = Some l ∧
      (l ∉ dom (heap w1)) ∧
      heap w2 !! l = Some [].
Proof.
  eexists. rewrite releaseContext_eq.
  split; [reflexivity|]. simpl. split_and!; try reflexivity.
  eexists _, _. rewrite getContext_eq. simpl.
  split_and!; try reflexivity.
  - apply is_fresh.
  - apply lookup_insert_eq.
Qed.

Example releaseContext_without_getContext :
  (FiscoBcosConnector.releaseContext Sample.w0).1 = Fulfilled tt.
Proof. reflexivity. Qed.

(** C10. [getContext] does not look at its arguments: any two calls from
    the same world, with any round indices and any arguments (of any types),
    give the same settlement and the same world. The call fulfils with a
    reference that was not allocated before and that holds an empty object;
    a second call returns another reference, again to an empty object. *)
Theorem getContext_independent_of_inputs {TxStatus settings Args1 Args2 : Type}
    (w : world TxStatus (FiscoBcosConnectorFields settings))
    (roundIndex1 roundIndex2 : Z) (args1 : Args1) (args2 : Args2) :
  FiscoBcosConnector.getContext roundIndex1 args1 w
    = FiscoBcosConnector.getContext roundIndex2 args2 w ∧
  ∃ l1 w1 l2 w2,
    FiscoBcosConnector.getContext roundIndex1 args1 w = (Fulfilled (Some l1), w1) ∧
    FiscoBcosConnector.getContext roundIndex2 args2 w1 = (Fulfilled (Some l2), w2) ∧
    (l1 ∉ dom (heap w)) ∧ heap w1 !! l1 = Some [] ∧
    (l2 ∉ dom (heap w1)) ∧ heap w2 !! l2 = Some [] ∧
    l1 ≠ l2 ∧ heap w2 !! l1 = heap w2 !! l2.
Proof.
  split; [reflexivity|].
  eexists _, _, _, _. rewrite !getContext_eq.
  split; [reflexivity|]. split; [reflexivity|]. simpl.
  set (l1 := fresh (dom (heap w))).
  set (l2 := fresh (dom (<[l1:=[]]> (heap w)))).
  assert (H1 : l1 ∉ dom (heap w)) by apply is_fresh.
  assert (H2 : l2 ∉ dom (<[l1:=[]]> (heap w))) by apply is_fresh.
  assert (Hne : l1 ≠ l2).
  { intros Heq. apply H2. rewrite <- Heq. apply elem_of_dom_insert_same. }
  split_and!; try done.
  - apply lookup_insert_eq.
  - apply lookup_insert_eq.
  - rewrite lookup_insert_eq, lookup_insert_ne by done.
    by rewrite lookup_insert_eq.
Qed.

(** C8. When the install strategy rejects with [e], [installSmartContract]
    writes one error line (the stack of [e] when it has one, its string form
    otherwise) and rejects with that same [e]; nothing else changes. *)
Theorem installSmartContract_rethrows {TxStatus settings : Type}
    (installSmartContractImpl_run : settings → string → settlement unit)
    (w : world TxStatus (FiscoBcosConnectorFields settings)) (e : error) :
  installSmartContractImpl_run (fiscoBcosSettings (this w)) (workspaceRoot (this w))
    = Rejected e →
  FiscoBcosConnector.installSmartContract installSmartContractImpl_run w
    = (Rejected e,
       mkWorld (this w) (heap w)
         (events w ++
          [LogError ("FISCO BCOS smart contract install failed: " +:+
                     default (error_to_string e) (truthy_stack e))])).
Proof.
  intros Hrun.
  unfold FiscoBcosConnector.installSmartContract, async_fn, try_catch.
  unfold mbind, M_bind, bind. simpl. rewrite Hrun. simpl.
  by destruct (truthy_stack e).
Qed.

Lemma installSmartContract_rethrows_witness :
  Sample.install_failing (fiscoBcosSettings (this Sample.w0))
      (workspaceRoot (this Sample.w0))
    = Rejected (new_Error "deploy failed") ∧
  FiscoBcosConnector.installSmartContract Sample.install_failing Sample.w0
    = (Rejected (new_Error "deploy failed"),
       mkWorld (this Sample.w0) (heap Sample.w0)
         (events Sample.w0 ++
          [LogError ("FISCO BCOS smart contract install failed: " +:+
                     default (error_to_string (new_Error "deploy failed"))
                             (truthy_stack (new_Error "deploy failed")))])).
Proof.
  split; [reflexivity|].
  apply (installSmartContract_rethrows Sample.install_failing Sample.w0
           (new_Error "deploy failed")).
  reflexivity.
Defined.

Example installSmartContract_succeeds :
  FiscoBcosConnector.installSmartContract (λ _ _, Fulfilled tt) Sample.w0
    = (Fulfilled tt, Sample.w0).
Proof. reflexivity. Qed.

(** ** The FISCO BCOS connector: normalisation of an argument map *)

Ltac unfold_M :=
  unfold mbind, M_bind, mret, M_ret, bind, ret, throw, lift, await, emit,
    get_this, set_this, try_catch, async_fn.

Lemma toString_callable (v : value) :
  has_methods v = true → toString v = Returns (ToString v).
Proof. by destruct v. Qed.

Lemma toString_not_callable (v : value) :
  has_methods v = false → ∃ e, toString v = Throws e.
Proof. destruct v; try discriminate; intros _; by eexists. Qed.

Section FiscoNormalize.
Context {TxStatus settings : Type}.
Implicit Types w : world TxStatus (FiscoBcosConnectorFields settings).
Implicit Types arg : object.

(** The [for ... in] loop over keys whose values all have methods: the last
    value seen under [transaction_type] names the function, the other values
    are appended in order, and the world is left alone. *)
Lemma for_keys_ok arg (ks : list string) :
  ∀ (fcn0 : option string) (args0 : list string) w,
    forallb (λ key, has_methods (get arg key)) ks = true →
    FiscoBcosConnector.foldM (FiscoBcosConnector.for_key arg) (fcn0, args0) ks w
      = (Returns
           (if decide ("transaction_type" ∈ ks)
            then Some (ToString (get arg "transaction_type")) else fcn0,
            args0 ++ ((λ key, ToString (get arg key)) <$>
                        filter (λ key, key ≠ "transaction_type") ks)),
         w).
Proof.
  induction ks as [|k ks IH]; intros fcn0 args0 w Hall; simpl.
  - by rewrite app_nil_r.
  - apply andb_prop in Hall as [Hk Hks].
    unfold FiscoBcosConnector.for_key at 1.
    rewrite (toString_callable _ Hk).
    destruct (decide (k = "transaction_type")) as [->|Hne].
    + unfold_M. simpl. rewrite IH by done.
      rewrite filter_cons_False by (intros Hc; by apply Hc).
      destruct (decide ("transaction_type" ∈ "transaction_type" :: ks))
        as [_|Hnin]; [by case_decide|].
      exfalso. apply Hnin. constructor.
    + unfold_M. simpl. rewrite IH by done.
      rewrite filter_cons_True by done.
      rewrite fmap_cons, <- app_assoc. simpl.
      destruct (decide ("transaction_type" ∈ ks)) as [Hin|Hnin].
      * by rewrite decide_True by (by apply list_elem_of_further).
      * rewrite decide_False; [done|].
        intros [Heq|Hin]%elem_of_cons; [by apply Hne|by apply Hnin].
Qed.

(** When a value without methods is met, the loop throws; the world is
    still left alone. *)
Lemma for_keys_throw arg (ks : list string) :
  ∀ (locals : option string * list string) w,
    forallb (λ key, has_methods (get arg key)) ks = false →
    ∃ e, FiscoBcosConnector.foldM (FiscoBcosConnector.for_key arg) locals ks w
         = (Throws e, w).
Proof.
  induction ks as [|k ks IH]; intros [fcn0 args0] w Hall; simpl in *.
  - discriminate.
  - unfold FiscoBcosConnector.for_key at 1.
    destruct (has_methods (get arg k)) eqn:Hk.
    + rewrite (toString_callable _ Hk). simpl in Hall.
      case_decide; unfold_M; simpl; by apply IH.
    + destruct (toString_not_callable _ Hk) as [e He]. rewrite He.
      exists e. by case_decide.
Qed.

Lemma normalize_ok arg w :
  callable_values arg = true →
  FiscoBcosConnector.normalize arg w
    = (Returns (function_name arg, positional_arguments arg), w).
Proof.
  intros Hall. unfold FiscoBcosConnector.normalize.
  by rewrite for_keys_ok.
Qed.

Lemma normalize_throw arg w :
  callable_values arg = false →
  ∃ e, FiscoBcosConnector.normalize arg w = (Throws e, w).
Proof. intros Hall. by apply for_keys_throw. Qed.

End FiscoNormalize.



Example normalize_transfer :
  FiscoBcosConnector.normalize Sample.transfer Sample.w0
    = (Returns (Some "transferFunds", ["X"; "10"]), Sample.w0).
Proof. reflexivity. Qed.

Example normalize_without_transaction_type :
  FiscoBcosConnector.normalize
    [("to", VStr "X"); ("amount", VNum (SafeInteger 10 eq_refl))] Sample.w0
    = (Returns (None, ["X"; "10"]), Sample.w0).
Proof. vm_compute. reflexivity. Qed.


(** ** The FISCO BCOS connector: batches *)

Section CountNone.
Context {A : Type}.
Implicit Types values : list (option A).

Lemma count_none_cons (x : option A) values :
  count_none (x :: values)
    = (match x with None => 1 | Some _ => 0 end + count_none values)%nat.
Proof.
  unfold count_none. destruct x.
  - by rewrite filter_cons_False.
  - by rewrite filter_cons_True.
Qed.

(** Filling an empty slot leaves one empty slot less. *)
Lemma count_none_fill values (i : nat) (r : A) :
  values !! i = Some None →
  count_none values = S (count_none (<[i := Some r]> values)).
Proof.
  revert i. induction values as [|x values IH]; intros i Hi; [done|].
  destruct i as [|i]; simpl in *.
  - injection Hi as ->. by rewrite !count_none_cons.
  - rewrite !count_none_cons, (IH i Hi). lia.
Qed.

Lemma count_none_replicate (n : nat) :
  count_none (replicate n (@None A)) = n.
Proof.
  induction n as [|n IH]; [done|].
  simpl. rewrite count_none_cons. lia.
Qed.

(** With no empty slot left, the values array is the array of results. *)
Lemma count_none_zero values :
  count_none values = 0%nat → Some <$> omap id values = values.
Proof.
  induction values as [|x values IH]; [done|].
  rewrite count_none_cons. destruct x as [a|]; [|lia].
  simpl. intros Hc. f_equal. by apply IH.
Qed.

End CountNone.

Section FiscoBatches.
Context {TxStatus settings : Type}.
Variable run : settings → string → option string → call_args → string →
               option bool → settlement TxStatus.
Implicit Types w : world TxStatus (FiscoBcosConnectorFields settings).
Implicit Types promises : list (settlement TxStatus).
Implicit Types values : list (option TxStatus).

Lemma foldM_cons {B S : Type}
    (f : S → B → M TxStatus (FiscoBcosConnectorFields settings) S)
    (s : S) (x : B) (rest : list B) w :
  FiscoBcosConnector.foldM f s (x :: rest) w
    = match f s x w with
      | (Returns s', w') => FiscoBcosConnector.foldM f s' rest w'
      | (Throws e, w') => (Throws e, w')
      end.
Proof. reflexivity. Qed.

(** One turn of [invocations.forEach] on an argument map that normalises:
    [TxsSubmitted(1)] is raised and the underlying call is issued. *)
Lemma forEach_callback_ok (contractID : string) promises (arg : object) w :
  callable_values arg = true →
  FiscoBcosConnector.forEach_callback run contractID promises arg w
    = (Returns (promises ++ [underlying_call run (this w) contractID arg]),
       mkWorld (this w) (heap w) (events w ++ [TxsSubmitted 1])).
Proof.
  intros Harg. unfold FiscoBcosConnector.forEach_callback.
  unfold BlockchainConnector._onTxsSubmitted. unfold_M.
  by rewrite normalize_ok.
Qed.

Lemma forEach_callback_throw (contractID : string) promises (arg : object) w :
  callable_values arg = false →
  ∃ e, FiscoBcosConnector.forEach_callback run contractID promises arg w
       = (Throws e, w).
Proof.
  intros Harg. destruct (normalize_throw arg w Harg) as [e He].
  exists e. unfold FiscoBcosConnector.forEach_callback. unfold_M.
  by rewrite He.
Qed.

(** [invocations.forEach] on argument maps that all normalise: one
    [TxsSubmitted(1)] and one underlying call per element, in order. *)
Lemma forEach_ok (contractID : string) (invocations : list object) :
  ∀ promises0 w,
    forallb callable_values invocations = true →
    FiscoBcosConnector.foldM (FiscoBcosConnector.forEach_callback run contractID)
        promises0 invocations w
      = (Returns (promises0 ++
                  (underlying_call run (this w) contractID <$> invocations)),
         mkWorld (this w) (heap w)
           (events w ++ replicate (length invocations) (TxsSubmitted 1))).
Proof.
  induction invocations as [|arg rest IH]; intros promises0 w Hall.
  - simpl. rewrite !app_nil_r. by destruct w.
  - apply andb_prop in Hall as [Harg Hrest].
    rewrite foldM_cons, forEach_callback_ok by done.
    rewrite IH by done. simpl.
    by rewrite <- !app_assoc.
Qed.

(** When an argument map does not normalise, the loop stops there: the
    elements before it were announced, nothing else happened. *)
Lemma forEach_throw (contractID : string) (invocations : list object) :
  ∀ promises0 w,
    forallb callable_values invocations = false →
    ∃ (k : nat) (e : error),
      (k < length invocations)%nat ∧
      FiscoBcosConnector.foldM (FiscoBcosConnector.forEach_callback run contractID)
          promises0 invocations w
        = (Throws e,
           mkWorld (this w) (heap w) (events w ++ replicate k (TxsSubmitted 1))).
Proof.
  induction invocations as [|arg rest IH]; intros promises0 w Hall.
  - discriminate.
  - rewrite foldM_cons. simpl in Hall.
    destruct (callable_values arg) eqn:Harg.
    + rewrite forEach_callback_ok by done. simpl in Hall.
      edestruct IH as (k & e & Hk & Heq); [exact Hall|].
      exists (S k), e. split; [simpl; lia|].
      rewrite Heq. simpl. by rewrite <- !app_assoc.
    + destruct (forEach_callback_throw contractID promises0 arg w Harg) as [e He].
      exists 0%nat, e. split; [simpl; lia|].
      rewrite He. simpl. rewrite app_nil_r. by destruct w.
Qed.

End FiscoBatches.

Section PromiseAll.
Context {TxStatus settings : Type}.
Implicit Types w : world TxStatus (FiscoBcosConnectorFields settings).
Implicit Types promises : list (settlement TxStatus).
Implicit Types values : list (option TxStatus).
Implicit Types settled : gset nat.

Local Instance Fulfilled_inj : Inj (=) (=) (@Fulfilled TxStatus).
Proof. by intros x y [= ->]. Qed.

Lemma all_invariant_init promises :
  all_invariant promises ∅ (replicate (length promises) None) (length promises).
Proof.
  split_and!.
  - apply length_replicate.
  - intros j. split.
    + intros Hj. by apply elem_of_empty in Hj.
    + intros [r Hr]. apply lookup_replicate in Hr as [? _]. discriminate.
  - intros j r Hr. apply lookup_replicate in Hr as [? _]. discriminate.
  - by rewrite count_none_replicate.
Qed.

(** A call that has not settled yet has an empty slot. *)
Lemma all_invariant_empty_slot promises settled values remaining (i : nat) :
  all_invariant promises settled values remaining →
  i ∉ settled → is_Some (promises !! i) →
  values !! i = Some None.
Proof.
  intros (Hlen & Hset & _ & _) Hi Hp.
  apply lookup_lt_is_Some_1 in Hp. rewrite <- Hlen in Hp.
  destruct (lookup_lt_is_Some_2 values i Hp) as [[r|] Hv]; [|done].
  exfalso. apply Hi, Hset. by exists r.
Qed.

(** The reaction of [Promise.all] to the fulfilment of call [i]. *)
Lemma all_invariant_fill promises settled values remaining (i : nat) (r : TxStatus) :
  all_invariant promises settled values remaining →
  i ∉ settled → promises !! i = Some (Fulfilled r) →
  remaining = S (remaining - 1) ∧
  all_invariant promises ({[i]} ∪ settled) (<[i := Some r]> values) (remaining - 1).
Proof.
  intros Hinv Hi Hp.
  assert (Hslot : values !! i = Some None).
  { eapply all_invariant_empty_slot; eauto. }
  destruct Hinv as (Hlen & Hset & Hval & Hrem).
  pose proof (count_none_fill values i r Hslot) as Hcount.
  split; [lia|]. split_and!.
  - by rewrite length_insert.
  - intros j. rewrite elem_of_union, elem_of_singleton, Hset.
    destruct (decide (j = i)) as [->|Hne].
    + split; [|by left]. intros _. exists r.
      apply list_lookup_insert_eq. by eapply lookup_lt_Some.
    + rewrite list_lookup_insert_ne by done. split; [|by right].
      by intros [?|?].
  - intros j r' Hj. destruct (decide (j = i)) as [->|Hne].
    + rewrite list_lookup_insert_eq in Hj by (by eapply lookup_lt_Some).
      by injection Hj as <-.
    + rewrite list_lookup_insert_ne in Hj by done. by apply Hval.
  - lia.
Qed.

(** Once no slot is empty, the values array holds the results of all the
    calls, in the order of the calls. *)
Lemma all_invariant_full promises settled values :
  all_invariant promises settled values 0 →
  promises = Fulfilled <$> omap id values.
Proof.
  intros (Hlen & _ & Hval & Hrem).
  symmetry in Hrem. apply count_none_zero in Hrem.
  set (results := omap id values) in *.
  apply list_eq. intros j. rewrite list_lookup_fmap.
  destruct (results !! j) as [r|] eqn:Hr; simpl.
  - apply Hval. by rewrite <- Hrem, list_lookup_fmap, Hr.
  - apply lookup_ge_None. apply lookup_ge_None in Hr.
    rewrite <- Hlen, <- Hrem, length_fmap. done.
Qed.

Lemma world_add_nil w : mkWorld (this w) (heap w) (events w ++ []) = w.
Proof. destruct w. simpl. by rewrite app_nil_r. Qed.

(** One turn of the settlement loop, when call [i] is new and fulfils. *)
Lemma Promise_all_go_fulfilled promises (i : nat) (sched : list nat)
    settled values remaining (r : TxStatus) w :
  i ∉ settled → promises !! i = Some (Fulfilled r) →
  FiscoBcosConnector.Promise_all_go promises (i :: sched) settled values remaining w
    = if decide (remaining = 1%nat)
      then (Returns (Some (Fulfilled (omap id (<[i := Some r]> values)))),
            mkWorld (this w) (heap w) (events w ++ [CallSettled i]))
      else FiscoBcosConnector.Promise_all_go promises sched ({[i]} ∪ settled)
             (<[i := Some r]> values) (remaining - 1)
             (mkWorld (this w) (heap w) (events w ++ [CallSettled i])).
Proof.
  intros Hi Hp. simpl. rewrite decide_False by done. rewrite Hp.
  unfold_M. by case_decide.
Qed.

(** One turn of the settlement loop, when call [i] is new and rejects. *)
Lemma Promise_all_go_rejected promises (i : nat) (sched : list nat)
    settled values remaining (e : error) w :
  i ∉ settled → promises !! i = Some (Rejected e) →
  FiscoBcosConnector.Promise_all_go promises (i :: sched) settled values remaining w
    = (Returns (Some (Rejected e)),
       mkWorld (this w) (heap w) (events w ++ [CallSettled i])).
Proof.
  intros Hi Hp. simpl. rewrite decide_False by done. by rewrite Hp.
Qed.

(** Whatever the order of settlement, [Promise.all] only adds settlement
    marks; it fulfils with the results of all the calls, in the order of the
    calls, and it rejects with the reason of a call that rejected. *)
Lemma Promise_all_go_shape promises (sched : list nat) :
  ∀ settled values remaining w,
    all_invariant promises settled values remaining →
    ∃ (order : list nat) res,
      FiscoBcosConnector.Promise_all_go promises sched settled values remaining w
        = (Returns res,
           mkWorld (this w) (heap w) (events w ++ (CallSettled <$> order))) ∧
      match res with
      | None => True
      | Some (Fulfilled results) => promises = Fulfilled <$> results
      | Some (Rejected e) => ∃ i, promises !! i = Some (Rejected e)
      end.
Proof.
  induction sched as [|i sched IH]; intros settled values remaining w Hinv.
  - exists [], None. simpl. by rewrite world_add_nil.
  - destruct (decide (i ∈ settled)) as [Hin|Hnin].
    { simpl. rewrite decide_True by done. by apply IH. }
    destruct (promises !! i) as [[r|e]|] eqn:Hp.
    + rewrite (Promise_all_go_fulfilled _ _ _ _ _ _ r) by done.
      destruct (all_invariant_fill _ _ _ _ i r Hinv Hnin Hp) as [Hrem Hinv'].
      case_decide as Hone.
      * exists [i], (Some (Fulfilled (omap id (<[i:=Some r]> values)))).
        split; [done|]. subst remaining.
        by eapply all_invariant_full.
      * destruct (IH _ _ _ (mkWorld (this w) (heap w) (events w ++ [CallSettled i]))
                    Hinv') as (order & res & Heq & Hres).
        exists (i :: order), res. rewrite Heq. simpl.
        by rewrite <- app_assoc.
    + rewrite (Promise_all_go_rejected _ _ _ _ _ _ e) by done.
      exists [i], (Some (Rejected e)). split; [done|]. by exists i.
    + simpl. rewrite decide_False by done. rewrite Hp. by apply IH.
Qed.

(** Fail-fast: calls [pre] fulfil, then call [i] rejects while it and
    possibly others are still awaited. [Promise.all] rejects at once with the
    reason of [i]; what would settle later is not waited for. *)
Lemma Promise_all_go_fail_fast promises (i : nat) (e : error) (post : list nat)
    (pre : list nat) :
  ∀ settled values remaining w,
    all_invariant promises settled values remaining →
    promises !! i = Some (Rejected e) →
    NoDup (pre ++ [i]) →
    (∀ j, j ∈ pre ++ [i] → j ∉ settled) →
    (∀ j, j ∈ pre → ∃ r, promises !! j = Some (Fulfilled r)) →
    FiscoBcosConnector.Promise_all_go promises (pre ++ i :: post)
        settled values remaining w
      = (Returns (Some (Rejected e)),
         mkWorld (this w) (heap w)
           (events w ++ (CallSettled <$> pre ++ [i]))).
Proof.
  induction pre as [|j pre IH];
    intros settled values remaining w Hinv Hi Hnd Hfresh Hpre.
  - simpl app. rewrite (Promise_all_go_rejected _ _ _ _ _ _ e); [done| |done].
    apply Hfresh. simpl. constructor.
  - simpl app.
    destruct (Hpre j) as [r Hj]; [constructor|].
    assert (Hjs : j ∉ settled) by (apply Hfresh; simpl; constructor).
    assert (His : i ∉ settled).
    { apply Hfresh. apply elem_of_app. right. constructor. }
    simpl in Hnd. apply NoDup_cons in Hnd as [Hjnot Hnd].
    assert (Hne : i ≠ j).
    { intros ->. apply Hjnot. apply elem_of_app. right. constructor. }
    rewrite (Promise_all_go_fulfilled _ _ _ _ _ _ r) by done.
    destruct (all_invariant_fill _ _ _ _ j r Hinv Hjs Hj) as [Hrem Hinv'].
    assert (Hslot : <[j := Some r]> values !! i = Some None).
    { eapply all_invariant_empty_slot; [exact Hinv'| |by rewrite Hi].
      rewrite elem_of_union, elem_of_singleton. by intros [?|?]. }
    pose proof (count_none_fill _ i r Hslot) as Hcount.
    destruct Hinv' as (Hlen' & Hset' & Hval' & Hrem').
    rewrite decide_False by lia.
    rewrite IH.
    + simpl. by rewrite <- app_assoc.
    + by split_and!.
    + done.
    + done.
    + intros x Hx. rewrite elem_of_union, elem_of_singleton.
      intros [->|Hxs]; [done|].
      revert Hxs. apply Hfresh. simpl. by constructor.
    + intros x Hx. apply Hpre. by constructor.
Qed.

(** All calls fulfil and [sched] lists, once each, the calls still awaited:
    [Promise.all] fulfils when the last of them settles, with the results in
    the order of the calls. *)
Lemma Promise_all_go_all_fulfilled (results : list TxStatus) (sched : list nat) :
  ∀ settled values remaining w,
    all_invariant (Fulfilled <$> results) settled values remaining →
    NoDup sched →
    (∀ j, j ∈ sched → (j ∉ settled) ∧ (j < length results)%nat) →
    length sched = remaining → sched ≠ [] →
    FiscoBcosConnector.Promise_all_go (Fulfilled <$> results) sched
        settled values remaining w
      = (Returns (Some (Fulfilled results)),
         mkWorld (this w) (heap w) (events w ++ (CallSettled <$> sched))).
Proof.
  induction sched as [|i sched IH];
    intros settled values remaining w Hinv Hnd Hsched Hlen Hne; [done|].
  destruct (Hsched i) as [Hi Hlt]; [constructor|].
  destruct (lookup_lt_is_Some_2 results i Hlt) as [r Hr].
  assert (Hp : (Fulfilled <$> results) !! i = Some (Fulfilled r)).
  { by rewrite list_lookup_fmap, Hr. }
  rewrite (Promise_all_go_fulfilled _ _ _ _ _ _ r) by done.
  destruct (all_invariant_fill _ _ _ _ i r Hinv Hi Hp) as [Hrem Hinv'].
  apply NoDup_cons in Hnd as [Hnotin Hnd].
  case_decide as Hone.
  - subst remaining. destruct sched; [|simpl in Hone; lia].
    rewrite Hone in Hinv'. simpl in Hinv'.
    apply all_invariant_full in Hinv'.
    apply (inj (fmap Fulfilled)) in Hinv'. by rewrite <- Hinv'.
  - rewrite IH.
    + simpl. by rewrite <- app_assoc.
    + done.
    + done.
    + intros j Hj. destruct (Hsched j) as [Hjs Hjl]; [by constructor|].
      split; [|done]. rewrite elem_of_union, elem_of_singleton.
      intros [->|?]; done.
    + simpl in Hlen. lia.
    + intros ->. simpl in Hlen. lia.
Qed.

End PromiseAll.

Section FiscoInvoke.
Context {TxStatus settings : Type}.
Variable run : settings → string → option string → call_args → string →
               option bool → settlement TxStatus.
Implicit Types w : world TxStatus (FiscoBcosConnectorFields settings).

(** The method, with its [try] block cut at the [await]. *)
Lemma invokeSmartContract_unfold (contractID contractVer : string)
    (invokeData : invokeData) (timeout : Z) (sched : list nat) w :
  FiscoBcosConnector.invokeSmartContract run contractID contractVer invokeData
      timeout sched w
    = match FiscoBcosConnector.foldM
              (FiscoBcosConnector.forEach_callback run contractID) []
              (invocations_of invokeData) w with
      | (Throws error, w1) =>
          (Some (Rejected error),
           mkWorld (this w1) (heap w1)
             (events w1 ++ [LogError (invoke_failed_line error)]))
      | (Returns promises, w1) =>
          match FiscoBcosConnector.Promise_all promises sched w1 with
          | (Returns None, w2) => (None, w2)
          | (Returns (Some (Fulfilled results)), w2) =>
              (Some (Fulfilled (Many results)),
               mkWorld (this w2) (heap w2)
                 (events w2 ++ [TxsFinished (Many results)]))
          | (Returns (Some (Rejected error)), w2)
          | (Throws error, w2) =>
              (Some (Rejected error),
               mkWorld (this w2) (heap w2)
                 (events w2 ++ [LogError (invoke_failed_line error)]))
          end
      end.
Proof.
  unfold FiscoBcosConnector.invokeSmartContract, invocations_of.
  destruct (FiscoBcosConnector.foldM _ _ _ w) as [[promises|e] w1].
  - destruct (FiscoBcosConnector.Promise_all promises sched w1)
      as [[[[results|e]|]|e] w2]; reflexivity.
  - reflexivity.
Qed.

(** Every call of [invokeSmartContract] goes one of the four ways of
    [batch_run], whatever the batch and the order of settlement. *)
Lemma invokeSmartContract_shape (contractID contractVer : string)
    (invokeData : invokeData) (timeout : Z) (sched : list nat) w :
  ∃ r new,
    FiscoBcosConnector.invokeSmartContract run contractID contractVer invokeData
        timeout sched w
      = (r, mkWorld (this w) (heap w) (events w ++ new)) ∧
    batch_run (length (invocations_of invokeData))
      (underlying_call run (this w) contractID <$> invocations_of invokeData)
      r new.
Proof.
  rewrite invokeSmartContract_unfold.
  set (invocations := invocations_of invokeData).
  destruct (forallb callable_values invocations) eqn:Hall.
  - rewrite forEach_ok by done. simpl app.
    remember (underlying_call run (this w) contractID <$> invocations)
      as promises eqn:Hp.
    assert (Hn : length promises = length invocations)
      by (subst promises; apply length_fmap).
    clear Hp. unfold FiscoBcosConnector.Promise_all.
    destruct promises as [|p ps].
    + unfold_M. simpl. rewrite <- Hn. simpl.
      eexists _, _. split; [by rewrite app_nil_r|].
      by apply (batch_fulfilled 0 [] [] []).
    + set (promises := p :: ps) in *.
      destruct (Promise_all_go_shape promises sched ∅ _ _
                  (mkWorld (this w) (heap w)
                     (events w ++ replicate (length invocations) (TxsSubmitted 1)))
                  (all_invariant_init promises))
        as (order & res & Heq & Hres).
      rewrite Heq. simpl.
      destruct res as [[results|e]|].
      * eexists _, _. split; [by rewrite <- !app_assoc|].
        apply batch_fulfilled; [done|].
        rewrite Hres, length_fmap in Hn. done.
      * destruct Hres as [i Hi].
        eexists _, _. split; [by rewrite <- !app_assoc|].
        by eapply batch_rejected.
      * eexists _, _. split; [by rewrite <- !app_assoc|].
        by apply batch_pending.
  - destruct (forEach_throw run contractID invocations [] w Hall)
      as (k & e & Hk & Heq).
    rewrite Heq. simpl.
    eexists _, _. split; [by rewrite <- !app_assoc|].
    by apply batch_threw.
Qed.

Lemma Promise_all_nonempty (promises : list (settlement TxStatus))
    (sched : list nat) w :
  promises ≠ [] →
  FiscoBcosConnector.Promise_all promises sched w
    = FiscoBcosConnector.Promise_all_go promises sched ∅
        (replicate (length promises) None) (length promises) w.
Proof. by destruct promises. Qed.

(** A [TxsFinished] event can only be the one that ends the events of a
    call whose underlying calls all fulfilled. *)
Lemma batch_run_finished (n : nat) (promises : list (settlement TxStatus))
    r (new : list (event TxStatus)) (p : payload TxStatus) :
  batch_run n promises r new →
  TxsFinished p ∈ new →
  ∃ order results,
    new = replicate n (TxsSubmitted 1) ++ (CallSettled <$> order) ++
          [TxsFinished (Many results)] ∧
    p = Many results ∧ length results = n ∧
    promises = Fulfilled <$> results ∧
    r = Some (Fulfilled (Many results)).
Proof.
  intros Hrun Hin.
  assert (Hsub : ∀ k, TxsFinished p ∉ replicate k (@TxsSubmitted TxStatus 1)).
  { intros k Hk. by apply elem_of_replicate_inv in Hk. }
  assert (Hset : ∀ order : list nat,
             TxsFinished p ∉ (@CallSettled TxStatus <$> order)).
  { intros order Ho. by apply list_elem_of_fmap in Ho as (i & ? & _). }
  assert (Hlog : ∀ msg, TxsFinished p ∉ [@LogError TxStatus msg]).
  { intros msg Hm. by apply list_elem_of_singleton in Hm. }
  destruct Hrun as [k e msg Hk|order Hlen|order i e msg Hlen Hi|order results Hp Hlen];
    repeat (apply elem_of_app in Hin as [Hin|Hin]);
    try (by apply Hsub in Hin); try (by apply Hset in Hin);
    try (by apply Hlog in Hin).
  apply list_elem_of_singleton in Hin as [= ->].
  by exists order, results.
Qed.

End FiscoInvoke.

(** C2, as amended. Take any batch of [n] argument maps (one map alone
    counting as a batch of one) and any order of settlement of the
    underlying calls.
    - If the call raises a [TxsFinished] event, then its events are exactly
      [n] times [TxsSubmitted(1)], then the settlements, then that one
      [TxsFinished] event; its payload is a list of [n] results, the [i]-th
      being the value with which the call issued for the [i]-th argument map
      fulfilled.
    - If every argument map normalises, every underlying call fulfils and
      each call settles once, in any order, then that is what happens. *)
Theorem invokeSmartContract_submitted_then_finished {TxStatus settings : Type}
    (run : settings → string → option string → call_args → string →
           option bool → settlement TxStatus)
    (contractID contractVer : string) (invokeData : invokeData) (timeout : Z)
    (sched : list nat) (w : world TxStatus (FiscoBcosConnectorFields settings)) :
  let invocations := invocations_of invokeData in
  let n := length invocations in
  let calls := underlying_call run (this w) contractID <$> invocations in
  (∀ r w' p,
      FiscoBcosConnector.invokeSmartContract run contractID contractVer
        invokeData timeout sched w = (r, w') →
      TxsFinished p ∈ drop (length (events w)) (events w') →
      ∃ order results,
        w' = mkWorld (this w) (heap w)
               (events w ++ replicate n (TxsSubmitted 1) ++
                (CallSettled <$> order) ++ [TxsFinished (Many results)]) ∧
        p = Many results ∧ length results = n ∧
        calls = Fulfilled <$> results ∧
        r = Some (Fulfilled (Many results))) ∧
  (∀ results,
      forallb callable_values invocations = true →
      calls = Fulfilled <$> results →
      sched ≡ₚ seq 0 n →
      FiscoBcosConnector.invokeSmartContract run contractID contractVer
        invokeData timeout sched w
        = (Some (Fulfilled (Many results)),
           mkWorld (this w) (heap w)
             (events w ++ replicate n (TxsSubmitted 1) ++
              (CallSettled <$> sched) ++ [TxsFinished (Many results)]))).
Proof.
  intros invocations n calls. split.
  - intros r w' p Heq Hin.
    destruct (invokeSmartContract_shape run contractID contractVer invokeData
                timeout sched w) as (r0 & new & Heq0 & Hrun).
    rewrite Heq0 in Heq. injection Heq as <- <-.
    simpl in Hin. rewrite drop_app_length in Hin.
    destruct (batch_run_finished _ _ _ _ _ Hrun Hin)
      as (order & results & -> & -> & Hlen & Hcalls & ->).
    by exists order, results.
  - intros results Hall Hcalls Hperm.
    rewrite invokeSmartContract_unfold, forEach_ok by done. simpl app.
    fold invocations calls n. rewrite Hcalls.
    assert (Hn : length results = n).
    { unfold n. by rewrite <- (length_fmap (underlying_call run (this w) contractID)),
        <- (length_fmap Fulfilled results), <- Hcalls. }
    destruct (decide (results = [])) as [->|Hne].
    + simpl in Hn. rewrite <- Hn in *. simpl in Hperm.
      apply Permutation_nil_r in Hperm as ->.
      simpl. by rewrite app_nil_r.
    + rewrite Promise_all_nonempty by (by destruct results).
      rewrite (Promise_all_go_all_fulfilled results sched).
      * simpl. by rewrite <- !app_assoc.
      * apply all_invariant_init.
      * rewrite Hperm. apply NoDup_seq.
      * intros j Hj. split; [by intros ?%elem_of_empty|].
        rewrite Hperm in Hj. apply elem_of_seq in Hj. lia.
      * rewrite length_fmap, Hperm, length_seq. lia.
      * intros ->. apply Permutation_nil_l in Hperm.
        destruct results; [done|]. simpl in Hn. rewrite <- Hn in Hperm.
        discriminate.
Qed.

Lemma invokeSmartContract_submitted_then_finished_witness :
  let data := Batch [Sample.call "a"; Sample.call "b"; Sample.call "c"] in
  let results := ["a"; "b"; "c"] in
  let w' := mkWorld (this Sample.w0) (heap Sample.w0)
              (events Sample.w0 ++ replicate 3 (TxsSubmitted 1) ++
               (CallSettled <$> [2; 0; 1]%nat) ++ [TxsFinished (Many results)]) in
  [2; 0; 1]%nat ≡ₚ seq 0 3 ∧
  FiscoBcosConnector.invokeSmartContract Sample.run_named "contract" "v1" data 30
    [2; 0; 1]%nat Sample.w0 = (Some (Fulfilled (Many results)), w') ∧
  ∃ order results',
    w' = mkWorld (this Sample.w0) (heap Sample.w0)
           (events Sample.w0 ++ replicate 3 (TxsSubmitted 1) ++
            (CallSettled <$> order) ++ [TxsFinished (Many results')]) ∧
    Many results = Many results' ∧ length results' = 3%nat ∧
    underlying_call Sample.run_named (this Sample.w0) "contract"
      <$> invocations_of data = Fulfilled <$> results' ∧
    Some (Fulfilled (Many results)) = Some (Fulfilled (Many results')).
Proof.
  intros data results w'.
  assert (Hperm : [2; 0; 1]%nat ≡ₚ seq 0 3).
  { simpl. etrans; [apply perm_swap|]. apply perm_skip, perm_swap. }
  destruct (invokeSmartContract_submitted_then_finished Sample.run_named
              "contract" "v1" data 30 [2; 0; 1]%nat Sample.w0)
    as [Hsafe Hlive].
  pose proof (Hlive results eq_refl eq_refl Hperm) as Heq.
  split; [exact Hperm|]. split; [exact Heq|].
  apply (Hsafe _ _ (Many results) Heq).
  simpl. do 6 apply list_elem_of_further. apply list_elem_of_here.
Defined.

Example invokeSmartContract_single_map :
  FiscoBcosConnector.invokeSmartContract Sample.run_named "contract" "v1"
    (Single Sample.transfer) 30 [0%nat] Sample.w0
    = (Some (Fulfilled (Many ["transferFunds"])),
       mkWorld Sample.connector ∅
         [TxsSubmitted 1; CallSettled 0; TxsFinished (Many ["transferFunds"])]).
Proof. vm_compute. reflexivity. Qed.

(** C2, as stated for every batch, fails on batches that do not go
    through. With a [null] value in the second of three argument maps, one
    [TxsSubmitted(1)] is raised and no [TxsFinished]; with the second of
    three calls rejecting, three [TxsSubmitted(1)] are raised and no
    [TxsFinished], here with the calls settling in order. *)
Lemma failing_batches_raise_no_finished :
  let bad := [("transaction_type", VStr "transferFunds"); ("to", VNull)] in
  let thrown := FiscoBcosConnector.invokeSmartContract Sample.run_named
                  "contract" "v1"
                  (Batch [Sample.call "a"; bad; Sample.call "b"]) 30
                  [0; 1; 2]%nat Sample.w0 in
  let rejected := FiscoBcosConnector.invokeSmartContract Sample.run_named
                    "contract" "v1"
                    (Batch [Sample.call "a"; Sample.call "fail"; Sample.call "b"])
                    30 [0; 1; 2]%nat Sample.w0 in
  channel (events thrown.2) = [TxsSubmitted 1] ∧
  ¬ submitted_then_finished 3 (events thrown.2) ∧
  channel (events rejected.2)
    = [TxsSubmitted 1; TxsSubmitted 1; TxsSubmitted 1] ∧
  ¬ submitted_then_finished 3 (events rejected.2).
Proof.
  intros bad thrown rejected.
  assert (Ht : channel (events thrown.2) = [TxsSubmitted 1])
    by (vm_compute; reflexivity).
  assert (Hr : channel (events rejected.2)
               = [TxsSubmitted 1; TxsSubmitted 1; TxsSubmitted 1])
    by (vm_compute; reflexivity).
  split; [exact Ht|]. split.
  { intros (results & Hfin & _). rewrite Ht in Hfin. discriminate Hfin. }
  split; [exact Hr|].
  intros (results & Hfin & _). rewrite Hr in Hfin. discriminate Hfin.
Qed.

(** C9. On the empty array, [invokeSmartContract] raises no [TxsSubmitted]
    event, raises one [TxsFinished] event with the empty list, and fulfils
    with the empty list, whatever the strategy and the order of settlement. *)
Theorem invokeSmartContract_empty_batch {TxStatus settings : Type}
    (run : settings → string → option string → call_args → string →
           option bool → settlement TxStatus)
    (contractID contractVer : string) (timeout : Z) (sched : list nat)
    (w : world TxStatus (FiscoBcosConnectorFields settings)) :
  ∃ new,
    FiscoBcosConnector.invokeSmartContract run contractID contractVer (Batch [])
      timeout sched w
      = (Some (Fulfilled (Many [])),
         mkWorld (this w) (heap w) (events w ++ new)) ∧
    new = [TxsFinished (Many [])] ∧
    filter (λ ev, is_submitted ev) new = [] ∧
    filter (λ ev, is_finished ev) new = [TxsFinished (Many [])].
Proof.
  exists [TxsFinished (Many [])].
  rewrite invokeSmartContract_unfold. simpl.
  split; [reflexivity|]. by split_and!.
Qed.

(** C1, as amended. Take a batch of [n] argument maps that all normalise,
    in which the underlying call of element [i] rejects with [e].
    - Whatever the order of settlement, the call raises [n] times
      [TxsSubmitted(1)] and no [TxsFinished] event, and it does not fulfil.
    - Fail-fast: when [i] is the first call to reject (the calls [pre] that
      settled before it all fulfilled), the batch rejects with [e] itself as
      soon as [i] settles, after one error line; the calls that have not
      settled by then are not waited for. *)
Theorem invokeSmartContract_fail_fast {TxStatus settings : Type}
    (run : settings → string → option string → call_args → string →
           option bool → settlement TxStatus)
    (contractID contractVer : string) (invokeData : invokeData) (timeout : Z)
    (w : world TxStatus (FiscoBcosConnectorFields settings))
    (i : nat) (e : error) :
  let invocations := invocations_of invokeData in
  let n := length invocations in
  let calls := underlying_call run (this w) contractID <$> invocations in
  forallb callable_values invocations = true →
  calls !! i = Some (Rejected e) →
  (∀ sched, ∃ r new,
      FiscoBcosConnector.invokeSmartContract run contractID contractVer
        invokeData timeout sched w
        = (r, mkWorld (this w) (heap w) (events w ++ new)) ∧
      filter (λ ev, is_submitted ev) new = replicate n (TxsSubmitted 1) ∧
      filter (λ ev, is_finished ev) new = [] ∧
      ∀ p, r ≠ Some (Fulfilled p)) ∧
  (∀ pre post,
      NoDup (pre ++ [i]) →
      (∀ j, j ∈ pre → ∃ r, calls !! j = Some (Fulfilled r)) →
      FiscoBcosConnector.invokeSmartContract run contractID contractVer
        invokeData timeout (pre ++ i :: post) w
        = (Some (Rejected e),
           mkWorld (this w) (heap w)
             (events w ++ replicate n (TxsSubmitted 1) ++
              (CallSettled <$> pre ++ [i]) ++
              [LogError (invoke_failed_line e)]))).
Proof.
  intros invocations n calls Hall Hi.
  assert (Hne : calls ≠ []) by (intros Hnil; by rewrite Hnil in Hi).
  split.
  - intros sched.
    rewrite invokeSmartContract_unfold, forEach_ok by done. simpl app.
    fold invocations calls n.
    rewrite Promise_all_nonempty by done.
    destruct (Promise_all_go_shape calls sched ∅ _ _
                (mkWorld (this w) (heap w)
                   (events w ++ replicate n (TxsSubmitted 1)))
                (all_invariant_init calls))
      as (order & res & Heq & Hres).
    rewrite Heq. simpl.
    assert (Hsub : ∀ tail : list (event TxStatus),
               filter (λ ev, is_submitted ev)
                 (replicate n (TxsSubmitted 1) ++ (CallSettled <$> order) ++ tail)
               = replicate n (TxsSubmitted 1) ++ filter (λ ev, is_submitted ev) tail).
    { intros tail. rewrite !filter_app. f_equal; [|f_equal].
      - clear. induction n as [|k IH]; [done|].
        simpl. rewrite filter_cons_True by done. by rewrite IH.
      - clear. induction order as [|o order IH]; [done|].
        simpl. by rewrite filter_cons_False by (by intros ?). }
    assert (Hfin : ∀ tail : list (event TxStatus),
               filter (λ ev, is_finished ev)
                 (replicate n (TxsSubmitted 1) ++ (CallSettled <$> order) ++ tail)
               = filter (λ ev, is_finished ev) tail).
    { intros tail. rewrite !filter_app.
      replace (filter (λ ev, is_finished ev) (replicate n (@TxsSubmitted TxStatus 1)))
        with (@nil (event TxStatus)).
      - replace (filter (λ ev, is_finished ev) (@CallSettled TxStatus <$> order))
          with (@nil (event TxStatus)); [done|].
        clear. induction order as [|o order IH]; [done|].
        simpl. by rewrite filter_cons_False by (by intros ?).
      - clear. induction n as [|k IH]; [done|].
        simpl. by rewrite filter_cons_False by (by intros ?). }
    destruct res as [[results|e']|].
    + exfalso. rewrite Hres, list_lookup_fmap in Hi.
      by destruct (results !! i).
    + eexists _, _. rewrite <- !app_assoc. split; [reflexivity|].
      rewrite Hsub, Hfin. split_and!; [by rewrite app_nil_r|done|done].
    + eexists _, _. rewrite <- !app_assoc. split; [reflexivity|].
      rewrite <- (app_nil_r (CallSettled <$> order)), Hsub, Hfin.
      split_and!; [by rewrite app_nil_r|done|done].
  - intros pre post Hnd Hpre.
    rewrite invokeSmartContract_unfold, forEach_ok by done. simpl app.
    fold invocations calls n.
    rewrite Promise_all_nonempty by done.
    rewrite (Promise_all_go_fail_fast calls i e post pre);
      [simpl; by rewrite <- !app_assoc | apply all_invariant_init
      | done | done | | done].
    intros j _. by intros ?%elem_of_empty.
Qed.

Lemma invokeSmartContract_fail_fast_witness :
  let data := Batch [Sample.call "a"; Sample.call "fail"; Sample.call "b"] in
  forallb callable_values (invocations_of data) = true ∧
  (underlying_call Sample.run_named (this Sample.w0) "contract"
     <$> invocations_of data) !! 1%nat = Some (Rejected Sample.boom) ∧
  (∃ r new,
      FiscoBcosConnector.invokeSmartContract Sample.run_named "contract" "v1"
        data 30 [0; 2; 1]%nat Sample.w0
        = (r, mkWorld (this Sample.w0) (heap Sample.w0) (events Sample.w0 ++ new)) ∧
      filter (λ ev, is_submitted ev) new = replicate 3 (TxsSubmitted 1) ∧
      filter (λ ev, is_finished ev) new = [] ∧
      ∀ p, r ≠ Some (Fulfilled p)) ∧
  FiscoBcosConnector.invokeSmartContract Sample.run_named "contract" "v1"
    data 30 ([2%nat] ++ 1%nat :: [0%nat]) Sample.w0
    = (Some (Rejected Sample.boom),
       mkWorld (this Sample.w0) (heap Sample.w0)
         (events Sample.w0 ++ replicate 3 (TxsSubmitted 1) ++
          (CallSettled <$> [2%nat] ++ [1%nat]) ++
          [LogError (invoke_failed_line Sample.boom)])).
Proof.
  intros data.
  destruct (invokeSmartContract_fail_fast Sample.run_named "contract" "v1"
              data 30 Sample.w0 1 Sample.boom eq_refl eq_refl)
    as [Hany Hfast].
  split; [reflexivity|]. split; [reflexivity|]. split; [apply Hany|].
  apply Hfast.
  - apply NoDup_cons. split; [|apply NoDup_singleton].
    intros Hin. by apply list_elem_of_singleton in Hin.
  - intros j Hj. apply list_elem_of_singleton in Hj as ->. by eexists.
Defined.

(** C1, as stated, fails on a batch of three whose second call rejects and
    settles first: the batch rejects when only that call has settled, and no
    [TxsFinished] event is raised at all. *)
Lemma three_element_batch_is_not_fail_together :
  let data := Batch [Sample.call "a"; Sample.call "fail"; Sample.call "b"] in
  let out := FiscoBcosConnector.invokeSmartContract Sample.run_named
               "contract" "v1" data 30 [1; 0; 2]%nat Sample.w0 in
  out = (Some (Rejected Sample.boom),
         mkWorld Sample.connector ∅
           [TxsSubmitted 1; TxsSubmitted 1; TxsSubmitted 1; CallSettled 1;
            LogError "FISCO BCOS smart contract invoke failed: Error: boom"]) ∧
  filter (λ ev, is_finished ev) (events out.2) = [] ∧
  (CallSettled 0 ∉ events out.2) ∧
  (CallSettled 2 ∉ events out.2) ∧
  ¬ fail_together 3 (events out.2) out.1.
Proof.
  intros data out.
  assert (Hout : out = (Some (Rejected Sample.boom),
         mkWorld Sample.connector ∅
           [TxsSubmitted 1; TxsSubmitted 1; TxsSubmitted 1; CallSettled 1;
            LogError "FISCO BCOS smart contract invoke failed: Error: boom"])).
  { vm_compute. reflexivity. }
  split; [exact Hout|]. rewrite Hout. simpl.
  assert (Hnot : ∀ i : nat, i ≠ 1%nat →
            @CallSettled string i ∉
              [TxsSubmitted 1; TxsSubmitted 1; TxsSubmitted 1; CallSettled 1;
               LogError "FISCO BCOS smart contract invoke failed: Error: boom"]).
  { intros i Hi Hin.
    repeat (apply elem_of_cons in Hin as [Hin|Hin]; [by inversion Hin|]).
    by apply elem_of_nil in Hin. }
  split; [reflexivity|]. split; [by apply Hnot|]. split; [by apply Hnot|].
  intros [(results & Hfin & _) _]. discriminate Hfin.
Qed.

Example rejection_settling_last_raises_no_finished :
  FiscoBcosConnector.invokeSmartContract Sample.run_named "contract" "v1"
    (Batch [Sample.call "a"; Sample.call "fail"; Sample.call "b"]) 30
    [0; 2; 1]%nat Sample.w0
  = (Some (Rejected Sample.boom),
     mkWorld Sample.connector ∅
       [TxsSubmitted 1; TxsSubmitted 1; TxsSubmitted 1;
        CallSettled 0; CallSettled 2; CallSettled 1;
        LogError "FISCO BCOS smart contract invoke failed: Error: boom"]).
Proof. vm_compute. reflexivity. Qed.

(** C5, as amended. [queryState] and the single-element
    [invokeSmartContract] call with the key folded into the argument map both
    raise [TxsSubmitted(1)] first. They differ afterwards: [queryState] calls
    the strategy with the key itself and the read-only flag, and on success
    raises [TxsFinished] with the bare result, which it returns;
    [invokeSmartContract] calls the strategy with the argument list made of
    the key and no flag, and on success raises [TxsFinished] with the
    one-element list of the result, which it returns. On failure both log one
    line and reject with the reason, raising no [TxsFinished]. *)
Theorem queryState_and_folded_invoke {TxStatus settings : Type}
    (run : settings → string → option string → call_args → string →
           option bool → settlement TxStatus)
    (contractID contractVer key fcn : string) (timeout : Z)
    (w : world TxStatus (FiscoBcosConnectorFields settings)) :
  FiscoBcosConnector.queryState run contractID contractVer key fcn w
    = match run (fiscoBcosSettings (this w)) contractID (Some fcn) (Key key)
              (workspaceRoot (this w)) (Some true) with
      | Fulfilled result =>
          (Fulfilled (One result),
           mkWorld (this w) (heap w)
             (events w ++ [TxsSubmitted 1; TxsFinished (One result)]))
      | Rejected e =>
          (Rejected e,
           mkWorld (this w) (heap w)
             (events w ++
              [TxsSubmitted 1;
               LogError ("FISCO BCOS smart contract query failed: " +:+
                         default (error_to_string e) (truthy_stack e))]))
      end ∧
  FiscoBcosConnector.invokeSmartContract run contractID contractVer
      (folded_query key fcn) timeout [0%nat] w
    = match run (fiscoBcosSettings (this w)) contractID (Some fcn)
              (FcArgs [key]) (workspaceRoot (this w)) None with
      | Fulfilled result =>
          (Some (Fulfilled (Many [result])),
           mkWorld (this w) (heap w)
             (events w ++
              [TxsSubmitted 1; CallSettled 0; TxsFinished (Many [result])]))
      | Rejected e =>
          (Some (Rejected e),
           mkWorld (this w) (heap w)
             (events w ++
              [TxsSubmitted 1; CallSettled 0; LogError (invoke_failed_line e)]))
      end.
Proof.
  split.
  - unfold FiscoBcosConnector.queryState.
    unfold BlockchainConnector._onTxsSubmitted, BlockchainConnector._onTxsFinished.
    unfold FiscoBcosConnector.commLogger_error. unfold_M. simpl.
    destruct (run _ _ _ _ _ _) as [result|e]; simpl.
    + by rewrite <- app_assoc.
    + rewrite <- app_assoc. by destruct (truthy_stack e).
  - rewrite invokeSmartContract_unfold.
    rewrite forEach_ok by reflexivity.
    set (call := run (fiscoBcosSettings (this w)) contractID (Some fcn)
                   (FcArgs [key]) (workspaceRoot (this w)) None).
    change (underlying_call run (this w) contractID
              <$> invocations_of (folded_query key fcn)) with [call].
    rewrite Promise_all_nonempty by done.
    destruct call as [result|e] eqn:Hcall.
    + rewrite (Promise_all_go_fulfilled _ _ _ _ _ _ result) by done.
      simpl. by rewrite <- !app_assoc.
    + rewrite (Promise_all_go_rejected _ _ _ _ _ _ e) by done.
      simpl. by rewrite <- !app_assoc.
Qed.

(** C5, as stated, fails even for a strategy that answers every call alike:
    the [TxsFinished] payload of [queryState] is the bare result, that of the
    folded [invokeSmartContract] call is a one-element list. *)
Lemma queryState_payload_is_not_a_list :
  let query := FiscoBcosConnector.queryState Sample.run_constant
                 "contract" "v1" "account" "balance" Sample.w0 in
  let invoke := FiscoBcosConnector.invokeSmartContract Sample.run_constant
                  "contract" "v1" (folded_query "account" "balance") 30
                  [0%nat] Sample.w0 in
  channel (events query.2) = [TxsSubmitted 1; TxsFinished (One "done")] ∧
  channel (events invoke.2) = [TxsSubmitted 1; TxsFinished (Many ["done"])] ∧
  channel (events query.2) ≠ channel (events invoke.2).
Proof.
  intros query invoke.
  assert (Hq : channel (events query.2)
               = [TxsSubmitted 1; TxsFinished (One "done")])
    by (vm_compute; reflexivity).
  assert (Hi : channel (events invoke.2)
               = [TxsSubmitted 1; TxsFinished (Many ["done"])])
    by (vm_compute; reflexivity).
  split; [exact Hq|]. split; [exact Hi|].
  rewrite Hq, Hi. discriminate.
Qed.

(** * Further properties *)

(** ** Contexts over a whole run *)

Section ContextCalls.
Context {TxStatus settings : Type}.
Implicit Types w : world TxStatus (FiscoBcosConnectorFields settings).

Lemma do_context_call_get (roundIndex : Z) (args : value) w :
  do_context_call (CallGetContext roundIndex args) w
    = (Fulfilled (Some (fresh (dom (heap w)))),
       mkWorld (set_context (Some (fresh (dom (heap w)))) (this w))
               (<[fresh (dom (heap w)) := []]> (heap w)) (events w)).
Proof. reflexivity. Qed.

Lemma do_context_call_release w :
  do_context_call CallReleaseContext w
    = (Fulfilled None, mkWorld (set_context None (this w)) (heap w) (events w)).
Proof. reflexivity. Qed.

Lemma do_context_calls_cons (c : context_call) (cs : list context_call) w :
  do_context_calls (c :: cs) w
    = ((do_context_call c w).1 :: (do_context_calls cs (do_context_call c w).2).1,
       (do_context_calls cs (do_context_call c w).2).2).
Proof.
  simpl. destruct (do_context_call c w) as [s w1]. simpl.
  by destruct (do_context_calls cs w1).
Qed.

Lemma heap_insert_fresh_subseteq (h : gmap loc object) (o : object) :
  h ⊆ <[fresh (dom h) := o]> h.
Proof. apply insert_subseteq, not_elem_of_dom, is_fresh. Qed.

Lemma heap_insert_fresh_size (h : gmap loc object) (o : object) :
  size (<[fresh (dom h) := o]> h) = S (size h).
Proof. apply map_size_insert_None, not_elem_of_dom, is_fresh. Qed.

End ContextCalls.

(** X1. Whatever sequence of [getContext] and [releaseContext] calls a
    worker makes, from whatever state: no call rejects; no event is raised
    and no field of the connector other than [context] changes; objects
    already in the heap stay as they are and each [getContext] adds one
    object that no [releaseContext] removes; at the end the connector holds
    no context if the last call was [releaseContext], and holds the new empty
    object that the last call returned if it was [getContext]. *)
Theorem context_calls_keep_connector {TxStatus settings : Type}
    (cs : list context_call) :
  ∀ w : world TxStatus (FiscoBcosConnectorFields settings),
    let out := do_context_calls cs w in
    Forall (λ s, ∃ v, s = Fulfilled v) out.1 ∧
    length out.1 = length cs ∧
    events out.2 = events w ∧
    set_context None (this out.2) = set_context None (this w) ∧
    heap w ⊆ heap out.2 ∧
    size (heap out.2)
      = (size (heap w) + length (filter (λ c, is_get_context c) cs))%nat ∧
    match last cs with
    | None => context (this out.2) = context (this w)
    | Some CallReleaseContext => context (this out.2) = None
    | Some (CallGetContext _ _) =>
        ∃ l, context (this out.2) = Some l ∧
             last out.1 = Some (Fulfilled (Some l)) ∧
             (l ∉ dom (heap w)) ∧ heap out.2 !! l = Some []
    end.
Proof.
  induction cs as [|c cs IH]; intros w out.
  - subst out. simpl. split_and!; try done; lia.
  - subst out. rewrite do_context_calls_cons. simpl fst. simpl snd.
    set (w1 := (do_context_call c w).2).
    destruct (IH w1) as (Hful & Hlen & Hev & Hthis & Hheap & Hsize & Hlast).
    assert (Hstep : (∃ v, (do_context_call c w).1 = Fulfilled v) ∧
                    events w1 = events w ∧
                    set_context None (this w1) = set_context None (this w) ∧
                    heap w ⊆ heap w1 ∧
                    size (heap w1)
                      = (size (heap w) + if is_get_context c then 1 else 0)%nat).
    { subst w1. destruct c as [roundIndex args|].
      - rewrite do_context_call_get. simpl.
        split_and!;
          [by eexists | done | done | apply heap_insert_fresh_subseteq
          | rewrite heap_insert_fresh_size; lia].
      - rewrite do_context_call_release. simpl.
        split_and!; [by eexists | done | done | done | lia]. }
    destruct Hstep as (Hful1 & Hev1 & Hthis1 & Hheap1 & Hsize1).
    split_and!.
    + by apply Forall_cons.
    + simpl. by rewrite Hlen.
    + by rewrite Hev.
    + by rewrite Hthis.
    + by etrans.
    + rewrite Hsize, Hsize1. destruct c.
      * rewrite filter_cons_True by done. simpl. lia.
      * rewrite filter_cons_False by (by intros ?). simpl. lia.
    + rewrite last_cons. destruct (last cs) as [[r a|]|] eqn:Hl.
      * destruct Hlast as (l & Hctx & Hret & Hnew & Hobj).
        exists l. split_and!; try done.
        -- rewrite last_cons. by rewrite Hret.
        -- intros Hd. apply Hnew. by apply (subseteq_dom _ _ Hheap1).
      * done.
      * apply last_None in Hl. subst cs. simpl in *.
        subst w1. destruct c as [roundIndex args|].
        -- rewrite do_context_call_get. simpl.
           exists (fresh (dom (heap w))). split_and!; try done.
           ++ apply is_fresh.
           ++ apply lookup_insert_eq.
        -- by rewrite do_context_call_release.
Qed.

Example context_calls_two_rounds :
  let out := do_context_calls
               [CallGetContext 0 VNull; CallReleaseContext;
                CallGetContext 1 VNull; CallGetContext 2 VNull]
               Sample.w0 in
  out.1 = [Fulfilled (Some 1%positive); Fulfilled None;
           Fulfilled (Some 2%positive); Fulfilled (Some 3%positive)] ∧
  context (this out.2) = Some 3%positive ∧ size (heap out.2) = 3%nat.
Proof. vm_compute. by split_and!. Qed.

(** ** Worker arguments at the bounds and one worker more *)

Section WorkerArguments.
Context {TxStatus T : Type}.
Implicit Types w : world TxStatus T.



End WorkerArguments.

(** X2. For a worker count of zero or below, the default
    [prepareWorkerArguments] fulfils with the empty array and leaves the
    world as it is: no object is created. *)
Theorem prepareWorkerArguments_nonpositive {TxStatus T : Type}
    (number : Z) (w : world TxStatus T) :
  number ≤ 0 →
  BlockchainConnector.prepareWorkerArguments number w = (Fulfilled [], w).
Proof.
  intros Hle. unfold BlockchainConnector.prepareWorkerArguments.
  replace (Z.to_nat number) with 0%nat by lia.
  reflexivity.
Qed.

Lemma prepareWorkerArguments_nonpositive_witness :
  -4 ≤ 0 ∧
  BlockchainConnector.prepareWorkerArguments (-4) Sample.base_world
    = (Fulfilled [], Sample.base_world).
Proof.
  split; [lia|].
  apply (prepareWorkerArguments_nonpositive (-4) Sample.base_world). lia.
Defined.



(** ** The constructor's loop over the authentication paths *)

(** Distinctness of the members of a list of string literals. *)
Ltac solve_NoDup_strings :=
  repeat (apply NoDup_cons; split;
          [let H := fresh in
           intros H;
           repeat (apply elem_of_cons in H as [H|H]; [discriminate H|]);
           by apply elem_of_nil in H|]);
  apply NoDup_nil_2.

Lemma get_app_notin (pre post : object) (key : string) :
  key ∉ keys pre → get (pre ++ post) key = get post key.
Proof.
  induction pre as [|[k v] pre IH]; intros Hnot; [done|].
  unfold keys in Hnot. rewrite fmap_cons in Hnot.
  apply not_elem_of_cons in Hnot as [Hne Hnot].
  simpl. rewrite decide_False by (by intros ->). by apply IH.
Qed.

Lemma set_property_app_notin (pre post : object) (key : string) (v : value) :
  key ∉ keys pre →
  set_property (pre ++ post) key v = pre ++ set_property post key v.
Proof.
  induction pre as [|[k old] pre IH]; intros Hnot; [done|].
  unfold keys in Hnot. rewrite fmap_cons in Hnot.
  apply not_elem_of_cons in Hnot as [Hne Hnot].
  simpl. rewrite decide_False by (by intros ->). f_equal. by apply IH.
Qed.

(** The loop, part of the way through, when every path resolves: the
    entries before the current key are done, those from it on are still to
    do. *)
Lemma resolve_keys_from (resolvePath : value → completion value)
    (todo : object) (resolved : list value) :
  Forall2 (λ entry path, resolvePath entry.2 = Returns path) todo resolved →
  ∀ ready : object,
    NoDup (keys (ready ++ todo)) →
    FiscoBcosConnector.resolve_keys resolvePath (keys todo) (ready ++ todo)
      = Returns (ready ++
                 zip_with (λ entry path, (entry.1, path)) todo resolved).
Proof.
  induction 1 as [|[k v] path todo resolved Hpath _ IH]; intros ready Hnd.
  - done.
  - assert (Hk : k ∉ keys ready).
    { unfold keys in *. rewrite fmap_app, fmap_cons in Hnd.
      apply NoDup_app in Hnd as (_ & Hdis & _).
      intros Hin. apply (Hdis k Hin). constructor. }
    change (keys ((k, v) :: todo)) with (k :: keys todo).
    simpl FiscoBcosConnector.resolve_keys.
    rewrite get_app_notin by done.
    simpl in Hpath. simpl get. rewrite decide_True by done. rewrite Hpath.
    rewrite set_property_app_notin by done.
    simpl set_property. rewrite decide_True by done.
    rewrite (cons_middle _ ready todo), app_assoc.
    rewrite IH.
    + by rewrite <- app_assoc.
    + rewrite <- app_assoc. simpl.
      unfold keys in *. rewrite fmap_app, fmap_cons in *. done.
Qed.

(** The loop, part of the way through, when the path under [key] does not
    resolve and those before it do. *)
Lemma resolve_keys_throw (resolvePath : value → completion value)
    (key : string) (v : value) (post : object) (e : error)
    (pre : object) (resolved : list value) :
  resolvePath v = Throws e →
  Forall2 (λ entry path, resolvePath entry.2 = Returns path) pre resolved →
  ∀ ready : object,
    NoDup (keys (ready ++ pre ++ (key, v) :: post)) →
    FiscoBcosConnector.resolve_keys resolvePath
        (keys (pre ++ (key, v) :: post)) (ready ++ pre ++ (key, v) :: post)
      = Throws e.
Proof.
  intros Hthrow.
  induction 1 as [|[k v'] path pre resolved Hpath _ IH]; intros ready Hnd.
  - simpl app in Hnd.
    assert (Hk : key ∉ keys ready).
    { unfold keys in *. rewrite fmap_app, fmap_cons in Hnd.
      apply NoDup_app in Hnd as (_ & Hdis & _).
      intros Hin. apply (Hdis key Hin). constructor. }
    simpl app. change (keys ((key, v) :: post)) with (key :: keys post).
    simpl FiscoBcosConnector.resolve_keys.
    rewrite get_app_notin by done.
    simpl get. rewrite decide_True by done. by rewrite Hthrow.
  - assert (Hk : k ∉ keys ready).
    { unfold keys in *. rewrite fmap_app in Hnd. simpl in Hnd.
      apply NoDup_app in Hnd as (_ & Hdis & _).
      intros Hin. apply (Hdis k Hin). constructor. }
    simpl app. change (keys ((k, v') :: pre ++ (key, v) :: post))
      with (k :: keys (pre ++ (key, v) :: post)).
    simpl FiscoBcosConnector.resolve_keys.
    rewrite get_app_notin by done.
    simpl in Hpath. simpl get. rewrite decide_True by done. rewrite Hpath.
    rewrite set_property_app_notin by done.
    simpl set_property. rewrite decide_True by done.
    rewrite (cons_middle _ ready (pre ++ (key, v) :: post)), app_assoc.
    apply IH.
    rewrite <- app_assoc. simpl.
    unfold keys in *. rewrite fmap_app in *. simpl in *. done.
Qed.

(** X4. On an authentication object (its keys being distinct, as the keys
    of an object are), the loop of the constructor goes as [resolvePath]
    does. When [resolvePath] returns a path for every value, each value is
    replaced by its path, keys and their order being kept. When it throws at
    some value, having returned for the values before it, the loop ends
    with that error. *)
Theorem resolve_authentication_outcomes (resolvePath : value → completion value)
    (authentication : object) :
  NoDup (keys authentication) →
  (∀ resolved,
      Forall2 (λ entry path, resolvePath entry.2 = Returns path)
              authentication resolved →
      FiscoBcosConnector.resolve_authentication resolvePath authentication
        = Returns (zip_with (λ entry path, (entry.1, path))
                     authentication resolved)) ∧
  (∀ pre key v post resolved e,
      authentication = pre ++ (key, v) :: post →
      Forall2 (λ entry path, resolvePath entry.2 = Returns path) pre resolved →
      resolvePath v = Throws e →
      FiscoBcosConnector.resolve_authentication resolvePath authentication
        = Throws e).
Proof.
  intros Hnd. split.
  - intros resolved Hall.
    exact (resolve_keys_from resolvePath authentication resolved Hall [] Hnd).
  - intros pre key v post resolved e -> Hpre Hthrow.
    exact (resolve_keys_throw resolvePath key v post e pre resolved
             Hthrow Hpre [] Hnd).
Qed.

Lemma resolve_authentication_outcomes_witness :
  NoDup (keys Sample.certificates) ∧
  NoDup (keys Sample.certificates_with_empty_path) ∧
  FiscoBcosConnector.resolve_authentication Sample.resolve_in_workspace
      Sample.certificates
    = Returns [("key", VStr "/workspace/sdk/node.key");
               ("cert", VStr "/etc/node.crt");
               ("ca", VStr "/workspace/sdk/ca.crt")] ∧
  FiscoBcosConnector.resolve_authentication Sample.resolve_in_workspace
      Sample.certificates_with_empty_path
    = Throws (new_Error "Util.resolvePath: Parameter is undefined").
Proof.
  assert (Hnd : NoDup (keys Sample.certificates)).
  { unfold keys. simpl. solve_NoDup_strings. }
  assert (Hnd' : NoDup (keys Sample.certificates_with_empty_path)).
  { unfold keys. simpl. solve_NoDup_strings. }
  split; [exact Hnd|]. split; [exact Hnd'|]. split.
  - apply (proj1 (resolve_authentication_outcomes Sample.resolve_in_workspace
                    Sample.certificates Hnd)
             [VStr "/workspace/sdk/node.key"; VStr "/etc/node.crt";
              VStr "/workspace/sdk/ca.crt"]).
    repeat (apply Forall2_cons; split; [reflexivity|]). apply Forall2_nil_2.
  - apply (proj2 (resolve_authentication_outcomes Sample.resolve_in_workspace
                    Sample.certificates_with_empty_path Hnd')
             [("key", VStr "sdk/node.key")] "cert" (VStr "")
             [("ca", VStr "sdk/ca.crt")] [VStr "/workspace/sdk/node.key"]
             (new_Error "Util.resolvePath: Parameter is undefined")).
    + reflexivity.
    + apply Forall2_cons. split; [reflexivity|]. apply Forall2_nil_2.
    + reflexivity.
Defined.

Example construct_resolves_certificates :
  construct 0 "fisco-bcos" "/workspace" Sample.resolve_in_workspace
    (mkSettings (Some (mkNetwork (Some Sample.certificates) tt)) tt)
  = Returns
      (FiscoBcosConnector.constructor 0 "fisco-bcos" "/workspace"
         (mkSettings
            (Some (mkNetwork
                     (Some [("key", VStr "/workspace/sdk/node.key");
                            ("cert", VStr "/etc/node.crt");
                            ("ca", VStr "/workspace/sdk/ca.crt")]) tt)) tt)).
Proof. vm_compute. reflexivity. Qed.

Example construct_throws_on_empty_path :
  construct 0 "fisco-bcos" "/workspace" Sample.resolve_in_workspace
    (mkSettings
       (Some (mkNetwork (Some Sample.certificates_with_empty_path) tt)) tt)
  = Throws (new_Error "Util.resolvePath: Parameter is undefined").
Proof. vm_compute. reflexivity. Qed.

(** ** Strategies that are awaited once *)

(** X5. [generateRawTransaction] raises [TxsSubmitted(1)] before the
    strategy settles. When the strategy fulfils, [TxsFinished] follows with
    the bare result, which is returned. When it rejects, the rejection
    passes through with the same error: no [TxsFinished] matches the
    [TxsSubmitted(1)] and, there being no [catch], nothing is logged. The
    connector and the heap are never touched. *)
Theorem generateRawTransaction_outcomes {TxStatus settings : Type}
    (generateRawTransactionImpl_run :
       settings → string → string → object → string → settlement TxStatus)
    (contractID : string) (arg : object) (file : string)
    (w : world TxStatus (FiscoBcosConnectorFields settings)) :
  FiscoBcosConnector.generateRawTransaction generateRawTransactionImpl_run
      contractID arg file w
    = match generateRawTransactionImpl_run (fiscoBcosSettings (this w))
              (workspaceRoot (this w)) contractID arg file with
      | Fulfilled result =>
          (Fulfilled (One result),
           mkWorld (this w) (heap w)
             (events w ++ [TxsSubmitted 1; TxsFinished (One result)]))
      | Rejected e =>
          (Rejected e,
           mkWorld (this w) (heap w) (events w ++ [TxsSubmitted 1]))
      end.
Proof.
  unfold FiscoBcosConnector.generateRawTransaction.
  unfold BlockchainConnector._onTxsSubmitted, BlockchainConnector._onTxsFinished.
  unfold_M. simpl.
  destruct (generateRawTransactionImpl_run _ _ _ _ _) as [result|e]; simpl.
  - by rewrite <- app_assoc.
  - done.
Qed.

Example generateRawTransaction_failure :
  FiscoBcosConnector.generateRawTransaction Sample.generate_failing
    "contract" Sample.transfer "/tmp/tx.json" Sample.w0
  = (Rejected Sample.boom, mkWorld Sample.connector ∅ [TxsSubmitted 1]).
Proof. reflexivity. Qed.

(** X6. [installSmartContract] settles exactly as the install strategy
    does, fulfilled or rejected; it never raises an event of the channel and
    never touches the connector or the heap; when the strategy fulfils the
    world is left as it was, log included. *)
Theorem installSmartContract_transparent {TxStatus settings : Type}
    (installSmartContractImpl_run : settings → string → settlement unit)
    (w : world TxStatus (FiscoBcosConnectorFields settings)) :
  let out := FiscoBcosConnector.installSmartContract
               installSmartContractImpl_run w in
  out.1 = installSmartContractImpl_run (fiscoBcosSettings (this w))
            (workspaceRoot (this w)) ∧
  this out.2 = this w ∧ heap out.2 = heap w ∧
  channel (events out.2) = channel (events w) ∧
  (∀ u, out.1 = Fulfilled u → out.2 = w).
Proof.
  unfold FiscoBcosConnector.installSmartContract.
  unfold FiscoBcosConnector.commLogger_error. unfold_M. simpl.
  destruct (installSmartContractImpl_run _ _) as [[]|e]; simpl.
  - by split_and!.
  - split_and!; try done.
    unfold channel. rewrite filter_app. simpl.
    rewrite filter_cons_False by (by intros ?). by rewrite app_nil_r.
Qed.

(** ** Batches: what the events tell, and the ways a batch ends early *)

Section EventFilters.
Context {TxStatus : Type}.
Implicit Types p : event TxStatus → bool.

Lemma filter_replicate_true p (x : event TxStatus) (k : nat) :
  p x = true → filter (λ ev, p ev) (replicate k x) = replicate k x.
Proof.
  intros Hp. induction k as [|k IH]; [done|].
  simpl. rewrite filter_cons_True by (rewrite Hp; exact I). by rewrite IH.
Qed.

Lemma filter_replicate_false p (x : event TxStatus) (k : nat) :
  p x = false → filter (λ ev, p ev) (replicate k x) = [].
Proof.
  intros Hp. induction k as [|k IH]; [done|].
  simpl. by rewrite filter_cons_False by (rewrite Hp; intros []).
Qed.

Lemma filter_fmap_false {B} p (f : B → event TxStatus) (l : list B) :
  (∀ b, p (f b) = false) → filter (λ ev, p ev) (f <$> l) = [].
Proof.
  intros Hp. induction l as [|b l IH]; [done|].
  simpl. by rewrite filter_cons_False by (rewrite Hp; intros []).
Qed.

End EventFilters.

(** X7. However a call of [invokeSmartContract] goes, it leaves the
    connector and the heap alone and only adds events, and these tell how it
    ended. If it fulfilled with [p]: [n] times [TxsSubmitted(1)], one
    [TxsFinished(p)], no error line. If it rejected: no [TxsFinished], one
    error line, and at most [n] times [TxsSubmitted(1)]. If it is still
    pending: [n] times [TxsSubmitted(1)], no [TxsFinished], no error line. *)
Theorem invokeSmartContract_accounting {TxStatus settings : Type}
    (run : settings → string → option string → call_args → string →
           option bool → settlement TxStatus)
    (contractID contractVer : string) (invokeData : invokeData) (timeout : Z)
    (sched : list nat) (w : world TxStatus (FiscoBcosConnectorFields settings)) :
  let n := length (invocations_of invokeData) in
  let out := FiscoBcosConnector.invokeSmartContract run contractID contractVer
               invokeData timeout sched w in
  this out.2 = this w ∧ heap out.2 = heap w ∧
  ∃ new,
    events out.2 = events w ++ new ∧
    match out.1 with
    | Some (Fulfilled p) =>
        filter (λ ev, is_submitted ev) new = replicate n (TxsSubmitted 1) ∧
        filter (λ ev, is_finished ev) new = [TxsFinished p] ∧
        filter (λ ev, is_log_error ev) new = []
    | Some (Rejected e) =>
        (∃ k, (k ≤ n)%nat ∧
              filter (λ ev, is_submitted ev) new = replicate k (TxsSubmitted 1)) ∧
        filter (λ ev, is_finished ev) new = [] ∧
        (∃ msg, filter (λ ev, is_log_error ev) new = [LogError msg])
    | None =>
        filter (λ ev, is_submitted ev) new = replicate n (TxsSubmitted 1) ∧
        filter (λ ev, is_finished ev) new = [] ∧
        filter (λ ev, is_log_error ev) new = []
    end.
Proof.
  intros n out. subst out.
  destruct (invokeSmartContract_shape run contractID contractVer invokeData
              timeout sched w) as (r & new & Heq & Hrun).
  rewrite Heq. simpl. split; [done|]. split; [done|].
  exists new. split; [done|]. fold n in Hrun.
  destruct Hrun as [k e msg Hk|order Hlen|order i e msg Hlen Hi|order results Hp Hlen];
    rewrite ?filter_app, ?filter_replicate_true, ?filter_replicate_false,
      ?filter_fmap_false by done; simpl;
    rewrite ?filter_cons_True, ?filter_cons_False, ?filter_nil, ?app_nil_r
      by (by intros ?).
  - split_and!; [exists k; split; [lia|done] | done | by exists msg].
  - by split_and!.
  - split_and!; [exists n; split; [lia|done] | done | by exists msg].
  - by split_and!.
Qed.

Lemma toString_throws_TypeError (v : value) :
  has_methods v = false → ∃ e, toString v = Throws e ∧ err_name e = "TypeError".
Proof. destruct v; try discriminate; intros _; by eexists. Qed.

Section EarlyEnds.
Context {TxStatus settings : Type}.
Variable run : settings → string → option string → call_args → string →
               option bool → settlement TxStatus.
Implicit Types w : world TxStatus (FiscoBcosConnectorFields settings).
Implicit Types promises : list (settlement TxStatus).

(** The error the [for ... in] loop throws depends on the argument map
    alone, and it is a [TypeError]. *)
Lemma for_keys_throw_TypeError (arg : object) (ks : list string) :
  forallb (λ key, has_methods (get arg key)) ks = false →
  ∃ e, err_name e = "TypeError" ∧
       ∀ (locals : option string * list string) w,
         FiscoBcosConnector.foldM (TxStatus := TxStatus)
           (FiscoBcosConnector.for_key arg) locals ks w = (Throws e, w).
Proof.
  induction ks as [|k ks IH]; intros Hall; simpl in Hall; [discriminate|].
  destruct (has_methods (get arg k)) eqn:Hk.
  - destruct (IH Hall) as (e & He & Hthrow). exists e. split; [done|].
    intros [fcn0 args0] w. rewrite foldM_cons.
    unfold FiscoBcosConnector.for_key. rewrite (toString_callable _ Hk).
    case_decide; unfold_M; simpl; apply Hthrow.
  - destruct (toString_throws_TypeError _ Hk) as (e & He & Hname).
    exists e. split; [done|].
    intros [fcn0 args0] w. rewrite foldM_cons.
    unfold FiscoBcosConnector.for_key. rewrite He.
    by case_decide.
Qed.

(** [invocations.forEach] up to the first argument map that does not
    normalise, [e] being what its normalisation throws. *)
Lemma forEach_throw_at (contractID : string) (bad : object) (post : list object)
    (e : error) (pre : list object) :
  (∀ (locals : option string * list string) w,
      FiscoBcosConnector.foldM (TxStatus := TxStatus)
        (FiscoBcosConnector.for_key bad) locals (keys bad) w = (Throws e, w)) →
  ∀ promises0 w,
    forallb callable_values pre = true →
    FiscoBcosConnector.foldM
        (FiscoBcosConnector.forEach_callback run contractID)
        promises0 (pre ++ bad :: post) w
      = (Throws e,
         mkWorld (this w) (heap w)
           (events w ++ replicate (length pre) (TxsSubmitted 1))).
Proof.
  intros Hthrow.
  induction pre as [|arg pre IH]; intros promises0 w Hpre.
  - simpl app. rewrite foldM_cons.
    unfold FiscoBcosConnector.forEach_callback, FiscoBcosConnector.normalize.
    unfold mbind, M_bind, bind. rewrite Hthrow.
    simpl. by rewrite world_add_nil.
  - simpl in Hpre. apply andb_prop in Hpre as [Harg Hpre].
    simpl app. rewrite foldM_cons, forEach_callback_ok by done.
    rewrite IH by done. simpl. by rewrite <- app_assoc.
Qed.

(** While a call of the batch is neither settled nor scheduled, and no
    scheduled call rejects, [Promise.all] stays pending. *)
Lemma Promise_all_go_pending promises (i : nat) (sched : list nat) :
  ∀ (settled : gset nat) (values : list (option TxStatus)) (remaining : nat) w,
    all_invariant promises settled values remaining →
    is_Some (promises !! i) → i ∉ settled → i ∉ sched →
    (∀ j e, j ∈ sched → promises !! j ≠ Some (Rejected e)) →
    ∃ order,
      FiscoBcosConnector.Promise_all_go promises sched settled values remaining w
        = (Returns None,
           mkWorld (this w) (heap w) (events w ++ (CallSettled <$> order))).
Proof.
  induction sched as [|j sched IH];
    intros settled values remaining w Hinv Hi His Hsched Hrej.
  - exists []. simpl. by rewrite world_add_nil.
  - apply not_elem_of_cons in Hsched as [Hne Hsched].
    assert (Hrej' : ∀ j' e, j' ∈ sched → promises !! j' ≠ Some (Rejected e)).
    { intros j' e Hj'. apply Hrej. by constructor. }
    destruct (decide (j ∈ settled)) as [Hin|Hnin].
    { simpl. rewrite decide_True by done. by apply IH. }
    destruct (promises !! j) as [[r|e]|] eqn:Hp.
    + rewrite (Promise_all_go_fulfilled _ _ _ _ _ _ r) by done.
      destruct (all_invariant_fill _ _ _ _ j r Hinv Hnin Hp) as [Hrem Hinv'].
      assert (Hslot : <[j := Some r]> values !! i = Some None).
      { eapply all_invariant_empty_slot; [exact Hinv'| |done].
        rewrite elem_of_union, elem_of_singleton. by intros [?|?]. }
      pose proof (count_none_fill _ i r Hslot) as Hcount.
      pose proof Hinv' as (_ & _ & _ & Hrem').
      rewrite decide_False by lia.
      destruct (IH ({[j]} ∪ settled) (<[j := Some r]> values)
                  (remaining - 1)%nat
                  (mkWorld (this w) (heap w) (events w ++ [CallSettled j])))
        as [order Heq]; try done.
      { rewrite elem_of_union, elem_of_singleton. by intros [?|?]. }
      exists (j :: order). rewrite Heq. simpl. by rewrite <- app_assoc.
    + exfalso. apply (Hrej j e); [constructor|done].
    + simpl. rewrite decide_False by done. rewrite Hp. by apply IH.
Qed.

End EarlyEnds.

(** X8. When an argument map of the batch holds a [null] or [undefined]
    value, the batch ends at the first such map: the maps before it were
    announced with [TxsSubmitted(1)] and their calls issued, the map itself
    and the maps after it are not; the batch rejects with a [TypeError]
    after one error line, without waiting for any call and without
    [TxsFinished]. *)
Theorem invokeSmartContract_stops_at_bad_map {TxStatus settings : Type}
    (invokeData : invokeData) (pre : list object) (bad : object)
    (post : list object) :
  invocations_of invokeData = pre ++ bad :: post →
  forallb callable_values pre = true →
  callable_values bad = false →
  ∃ e, err_name e = "TypeError" ∧
       ∀ (run : settings → string → option string → call_args → string →
                option bool → settlement TxStatus)
         (contractID contractVer : string) (timeout : Z) (sched : list nat)
         (w : world TxStatus (FiscoBcosConnectorFields settings)),
         FiscoBcosConnector.invokeSmartContract run contractID contractVer
           invokeData timeout sched w
           = (Some (Rejected e),
              mkWorld (this w) (heap w)
                (events w ++ replicate (length pre) (TxsSubmitted 1) ++
                 [LogError (invoke_failed_line e)])).
Proof.
  intros Hinv Hpre Hbad.
  destruct (for_keys_throw_TypeError (TxStatus := TxStatus)
              (settings := settings) bad (keys bad) Hbad) as (e & He & Hthrow).
  exists e. split; [done|].
  intros run contractID contractVer timeout sched w.
  rewrite invokeSmartContract_unfold, Hinv.
  rewrite (forEach_throw_at run contractID bad post e pre Hthrow) by done.
  simpl. by rewrite <- app_assoc.
Qed.

Lemma invokeSmartContract_stops_at_bad_map_witness :
  let bad := [("transaction_type", VStr "transferFunds"); ("to", VNull)] in
  let data := Batch [Sample.call "a"; bad; Sample.call "b"] in
  invocations_of data = [Sample.call "a"] ++ bad :: [Sample.call "b"] ∧
  forallb callable_values [Sample.call "a"] = true ∧
  callable_values bad = false ∧
  ∃ e, err_name e = "TypeError" ∧
       ∀ (run : unit → string → option string → call_args → string →
                option bool → settlement string)
         (contractID contractVer : string) (timeout : Z) (sched : list nat)
         (w : world string (FiscoBcosConnectorFields unit)),
         FiscoBcosConnector.invokeSmartContract run contractID contractVer
           data timeout sched w
           = (Some (Rejected e),
              mkWorld (this w) (heap w)
                (events w ++ replicate (length [Sample.call "a"]) (TxsSubmitted 1) ++
                 [LogError (invoke_failed_line e)])).
Proof.
  intros bad data.
  split; [reflexivity|]. split; [reflexivity|]. split; [reflexivity|].
  exact (invokeSmartContract_stops_at_bad_map data [Sample.call "a"] bad
           [Sample.call "b"] eq_refl eq_refl eq_refl).
Defined.

Example bad_map_in_the_middle :
  FiscoBcosConnector.invokeSmartContract Sample.run_named "contract" "v1"
    (Batch [Sample.call "a";
            [("transaction_type", VStr "transferFunds"); ("to", VNull)];
            Sample.call "b"]) 30 [0; 1; 2]%nat Sample.w0
  = (Some (Rejected (new_TypeError
                       "Cannot read properties of null (reading 'toString')")),
     mkWorld Sample.connector ∅
       [TxsSubmitted 1;
        LogError "FISCO BCOS smart contract invoke failed: TypeError: Cannot read properties of null (reading 'toString')"]).
Proof. vm_compute. reflexivity. Qed.

(** X9. No timer runs at this layer: when every argument map normalises,
    some call of the batch never settles and no call that settles rejects,
    the promise of [invokeSmartContract] stays pending whatever [timeout] was
    given; the [n] events [TxsSubmitted(1)] are matched by no [TxsFinished]
    and nothing is logged. *)
Theorem invokeSmartContract_pending {TxStatus settings : Type}
    (run : settings → string → option string → call_args → string →
           option bool → settlement TxStatus)
    (contractID contractVer : string) (invokeData : invokeData)
    (sched : list nat) (w : world TxStatus (FiscoBcosConnectorFields settings))
    (i : nat) :
  let invocations := invocations_of invokeData in
  let n := length invocations in
  let calls := underlying_call run (this w) contractID <$> invocations in
  forallb callable_values invocations = true →
  (i < n)%nat → i ∉ sched →
  (∀ j e, j ∈ sched → calls !! j ≠ Some (Rejected e)) →
  ∀ timeout : Z, ∃ order,
    FiscoBcosConnector.invokeSmartContract run contractID contractVer
      invokeData timeout sched w
      = (None,
         mkWorld (this w) (heap w)
           (events w ++ replicate n (TxsSubmitted 1) ++ (CallSettled <$> order))).
Proof.
  intros invocations n calls Hall Hi Hsched Hrej timeout.
  assert (Hsome : is_Some (calls !! i)).
  { apply lookup_lt_is_Some_2. unfold calls. by rewrite length_fmap. }
  assert (Hne : calls ≠ []).
  { intros Hnil. rewrite Hnil in Hsome. by destruct Hsome. }
  rewrite invokeSmartContract_unfold, forEach_ok by done. simpl app.
  fold invocations calls n.
  rewrite Promise_all_nonempty by done.
  destruct (Promise_all_go_pending calls i sched ∅ _ _
              (mkWorld (this w) (heap w)
                 (events w ++ replicate n (TxsSubmitted 1)))
              (all_invariant_init calls) Hsome)
    as [order Heq]; [by intros ?%elem_of_empty | done | done |].
  exists order. rewrite Heq. simpl. by rewrite <- app_assoc.
Qed.

Lemma invokeSmartContract_pending_witness :
  let data := Batch [Sample.call "a"; Sample.call "b"; Sample.call "c"] in
  forallb callable_values (invocations_of data) = true ∧
  (1 < length (invocations_of data))%nat ∧ (1%nat ∉ [2; 0]%nat) ∧
  ∀ timeout : Z, ∃ order,
    FiscoBcosConnector.invokeSmartContract Sample.run_named "contract" "v1"
      data timeout [2; 0]%nat Sample.w0
      = (None,
         mkWorld (this Sample.w0) (heap Sample.w0)
           (events Sample.w0 ++
            replicate (length (invocations_of data)) (TxsSubmitted 1) ++
            (CallSettled <$> order))).
Proof.
  intros data.
  assert (Hnot : 1%nat ∉ [2; 0]%nat).
  { intros Hin. repeat (apply elem_of_cons in Hin as [Hin|Hin]; [discriminate Hin|]).
    by apply elem_of_nil in Hin. }
  split; [reflexivity|]. split; [simpl; lia|]. split; [exact Hnot|].
  apply (invokeSmartContract_pending Sample.run_named "contract" "v1" data
           [2; 0]%nat Sample.w0 1); [reflexivity | simpl; lia | exact Hnot |].
  intros j e Hj.
  repeat (apply elem_of_cons in Hj as [->|Hj]; [discriminate|]).
  by apply elem_of_nil in Hj.
Defined.

(** ** What the normalisation does not look at *)

Lemma get_entry (arg : object) (key : string) (v : value) :
  NoDup (keys arg) → (key, v) ∈ arg → get arg key = v.
Proof.
  induction arg as [|[k' v'] arg IH]; intros Hnd Hin.
  - by apply elem_of_nil in Hin.
  - unfold keys in Hnd. rewrite fmap_cons in Hnd.
    apply NoDup_cons in Hnd as [Hnot Hnd].
    apply elem_of_cons in Hin as [[= -> ->]|Hin]; simpl.
    + by rewrite decide_True.
    + rewrite decide_False; [by apply IH|].
      intros ->. apply Hnot.
      apply list_elem_of_fmap. by exists (key, v).
Qed.

Lemma get_notin (arg : object) (key : string) :
  key ∉ keys arg → get arg key = VUndefined.
Proof.
  induction arg as [|[k' v'] arg IH]; intros Hnot; [done|].
  unfold keys in Hnot. rewrite fmap_cons in Hnot.
  apply not_elem_of_cons in Hnot as [Hne Hnot].
  simpl. rewrite decide_False by (by intros ->). by apply IH.
Qed.

Lemma get_Permutation (arg1 arg2 : object) (key : string) :
  NoDup (keys arg1) → arg1 ≡ₚ arg2 → get arg1 key = get arg2 key.
Proof.
  intros Hnd1 Hperm.
  assert (Hkeys : keys arg1 ≡ₚ keys arg2) by (unfold keys; by rewrite Hperm).
  assert (Hnd2 : NoDup (keys arg2)) by (by rewrite <- Hkeys).
  destruct (decide (key ∈ keys arg1)) as [Hin|Hnin].
  - apply list_elem_of_fmap in Hin as ([k v] & -> & Hin). simpl.
    rewrite (get_entry arg1 k v) by done.
    symmetry. apply get_entry; [done|]. by rewrite <- Hperm.
  - rewrite (get_notin arg1) by done.
    symmetry. apply get_notin. by rewrite <- Hkeys.
Qed.

Lemma keys_filter_reserved (arg : object) :
  filter (λ key, key ≠ "transaction_type") (keys arg)
    = keys (filter (λ entry, entry.1 ≠ "transaction_type") arg).
Proof.
  induction arg as [|[k v] arg IH]; [done|].
  change (keys ((k, v) :: arg)) with (k :: keys arg).
  destruct (decide (k = "transaction_type")) as [->|Hne].
  - rewrite !filter_cons_False by (intros Hc; by apply Hc). done.
  - rewrite filter_cons_True by done.
    rewrite (filter_cons_True
               (λ entry : string * value, entry.1 ≠ "transaction_type"))
      by done.
    unfold keys in *. simpl. by f_equal.
Qed.

Section NormalizeInvariance.
Context {TxStatus settings : Type}.
Implicit Types w : world TxStatus (FiscoBcosConnectorFields settings).

(** A turn of the loop looks at the key only to tell whether it is the
    reserved one, and at the value under it. *)
Lemma for_key_ext (arg1 arg2 : object) (k1 k2 : string)
    (locals : option string * list string) w :
  (k1 = "transaction_type" ↔ k2 = "transaction_type") →
  get arg1 k1 = get arg2 k2 →
  FiscoBcosConnector.for_key arg1 locals k1 w
    = FiscoBcosConnector.for_key arg2 locals k2 w.
Proof.
  intros Hiff Hget. unfold FiscoBcosConnector.for_key.
  destruct locals as [fcn fcArgs]. rewrite Hget.
  destruct (decide (k1 = "transaction_type")) as [H1|H1].
  - by rewrite decide_True by (by apply Hiff).
  - rewrite decide_False; [done|]. intros H2. by apply H1, Hiff.
Qed.

Lemma for_keys_ext (arg1 arg2 : object) (ks1 ks2 : list string) :
  Forall2 (λ k1 k2, (k1 = "transaction_type" ↔ k2 = "transaction_type") ∧
                    get arg1 k1 = get arg2 k2) ks1 ks2 →
  ∀ (locals : option string * list string) w,
    FiscoBcosConnector.foldM (FiscoBcosConnector.for_key arg1) locals ks1 w
      = FiscoBcosConnector.foldM (FiscoBcosConnector.for_key arg2) locals ks2 w.
Proof.
  induction 1 as [|k1 k2 ks1 ks2 [Hiff Hget] _ IH]; intros locals w; [done|].
  rewrite !foldM_cons, (for_key_ext arg1 arg2 k1 k2) by done.
  destruct (FiscoBcosConnector.for_key arg2 locals k2 w) as [[locals'|e] w'];
    [apply IH|done].
Qed.

(** What [invokeSmartContract] does with one argument map is decided by
    the normalisation of that map. *)
Lemma invokeSmartContract_single_ext
    (run : settings → string → option string → call_args → string →
           option bool → settlement TxStatus)
    (contractID contractVer : string) (timeout : Z) (sched : list nat)
    (arg1 arg2 : object) w :
  (∀ w', FiscoBcosConnector.normalize (TxStatus := TxStatus)
           (settings := settings) arg1 w'
         = FiscoBcosConnector.normalize arg2 w') →
  FiscoBcosConnector.invokeSmartContract run contractID contractVer
      (Single arg1) timeout sched w
    = FiscoBcosConnector.invokeSmartContract run contractID contractVer
        (Single arg2) timeout sched w.
Proof.
  intros Hnorm. rewrite !invokeSmartContract_unfold.
  simpl invocations_of. rewrite !foldM_cons.
  assert (Hcb : FiscoBcosConnector.forEach_callback run contractID [] arg1 w
                = FiscoBcosConnector.forEach_callback run contractID [] arg2 w).
  { unfold FiscoBcosConnector.forEach_callback.
    unfold mbind, M_bind, bind. by rewrite Hnorm. }
  by rewrite Hcb.
Qed.

End NormalizeInvariance.

(** X10. The names of the keys other than [transaction_type] play no part:
    two argument maps (each with distinct keys) that hold the same values in
    the same order, the reserved key standing at the same places, make
    [invokeSmartContract] do the same thing, errors included. *)
Theorem invokeSmartContract_ignores_key_names {TxStatus settings : Type}
    (run : settings → string → option string → call_args → string →
           option bool → settlement TxStatus)
    (contractID contractVer : string) (timeout : Z) (sched : list nat)
    (w : world TxStatus (FiscoBcosConnectorFields settings))
    (arg1 arg2 : object) :
  NoDup (keys arg1) → NoDup (keys arg2) →
  Forall2 (λ entry1 entry2,
             entry1.2 = entry2.2 ∧
             (entry1.1 = "transaction_type" ↔ entry2.1 = "transaction_type"))
          arg1 arg2 →
  FiscoBcosConnector.invokeSmartContract run contractID contractVer
      (Single arg1) timeout sched w
    = FiscoBcosConnector.invokeSmartContract run contractID contractVer
        (Single arg2) timeout sched w.
Proof.
  intros Hnd1 Hnd2 Hsame.
  apply invokeSmartContract_single_ext. intros w'.
  unfold FiscoBcosConnector.normalize. apply for_keys_ext.
  unfold keys. apply Forall2_fmap.
  apply Forall2_same_length_lookup. split; [by eapply Forall2_length|].
  intros i [k1 v1] [k2 v2] H1 H2.
  destruct (Forall2_lookup_lr _ _ _ _ _ _ Hsame H1 H2) as [Hval Hiff].
  simpl in *. split; [done|].
  rewrite (get_entry arg1 k1 v1), (get_entry arg2 k2 v2);
    [done | done | by eapply list_elem_of_lookup_2
    | done | by eapply list_elem_of_lookup_2].
Qed.

Lemma invokeSmartContract_ignores_key_names_witness :
  NoDup (keys Sample.transfer) ∧ NoDup (keys Sample.transfer_renamed) ∧
  Forall2 (λ entry1 entry2,
             entry1.2 = entry2.2 ∧
             (entry1.1 = "transaction_type" ↔ entry2.1 = "transaction_type"))
          Sample.transfer Sample.transfer_renamed ∧
  FiscoBcosConnector.invokeSmartContract Sample.run_named "contract" "v1"
      (Single Sample.transfer) 30 [0%nat] Sample.w0
    = FiscoBcosConnector.invokeSmartContract Sample.run_named "contract" "v1"
        (Single Sample.transfer_renamed) 30 [0%nat] Sample.w0.
Proof.
  assert (Hnd1 : NoDup (keys Sample.transfer))
    by (unfold keys; simpl; solve_NoDup_strings).
  assert (Hnd2 : NoDup (keys Sample.transfer_renamed))
    by (unfold keys; simpl; solve_NoDup_strings).
  assert (Hsame : Forall2 (λ entry1 entry2,
             entry1.2 = entry2.2 ∧
             (entry1.1 = "transaction_type" ↔ entry2.1 = "transaction_type"))
          Sample.transfer Sample.transfer_renamed).
  { repeat (apply Forall2_cons; split; [simpl; split; [done|by split]|]).
    apply Forall2_nil_2. }
  split; [exact Hnd1|]. split; [exact Hnd2|]. split; [exact Hsame|].
  exact (invokeSmartContract_ignores_key_names Sample.run_named "contract" "v1"
           30 [0%nat] Sample.w0 Sample.transfer Sample.transfer_renamed
           Hnd1 Hnd2 Hsame).
Defined.

(** X11. The place of [transaction_type] in the argument map plays no
    part: when every value of the map has a string form, moving entries
    around in a way that keeps the order of the other entries among
    themselves does not change what [invokeSmartContract] does. *)
Theorem invokeSmartContract_ignores_reserved_key_position
    {TxStatus settings : Type}
    (run : settings → string → option string → call_args → string →
           option bool → settlement TxStatus)
    (contractID contractVer : string) (timeout : Z) (sched : list nat)
    (w : world TxStatus (FiscoBcosConnectorFields settings))
    (arg1 arg2 : object) :
  NoDup (keys arg1) → arg1 ≡ₚ arg2 →
  filter (λ entry, entry.1 ≠ "transaction_type") arg1
    = filter (λ entry, entry.1 ≠ "transaction_type") arg2 →
  callable_values arg1 = true →
  FiscoBcosConnector.invokeSmartContract run contractID contractVer
      (Single arg1) timeout sched w
    = FiscoBcosConnector.invokeSmartContract run contractID contractVer
        (Single arg2) timeout sched w.
Proof.
  intros Hnd Hperm Hfilter Hcall.
  assert (Hget : ∀ key, get arg1 key = get arg2 key).
  { intros key. by apply get_Permutation. }
  assert (Hkeys : keys arg1 ≡ₚ keys arg2) by (unfold keys; by rewrite Hperm).
  assert (Hcall2 : callable_values arg2 = true).
  { unfold callable_values in *.
    apply Is_true_true, forallb_True, Forall_forall. intros key Hkey.
    apply Is_true_true_2 in Hcall.
    apply forallb_True in Hcall.
    rewrite Forall_forall in Hcall.
    rewrite <- Hget. apply Hcall. by rewrite Hkeys. }
  apply invokeSmartContract_single_ext. intros w'.
  rewrite !normalize_ok by done. do 2 f_equal.
  unfold function_name, positional_arguments.
  rewrite !keys_filter_reserved, <- Hfilter, Hget. f_equal.
  - destruct (decide ("transaction_type" ∈ keys arg1)) as [Hin|Hnin].
    + by rewrite decide_True by (by rewrite <- Hkeys).
    + by rewrite decide_False by (by rewrite <- Hkeys).
  - apply list_fmap_ext. intros i key _. by rewrite Hget.
Qed.

Lemma invokeSmartContract_ignores_reserved_key_position_witness :
  NoDup (keys Sample.transfer) ∧
  Sample.transfer ≡ₚ Sample.transfer_reordered ∧
  filter (λ entry, entry.1 ≠ "transaction_type") Sample.transfer
    = filter (λ entry, entry.1 ≠ "transaction_type") Sample.transfer_reordered ∧
  callable_values Sample.transfer = true ∧
  FiscoBcosConnector.invokeSmartContract Sample.run_named "contract" "v1"
      (Single Sample.transfer) 30 [0%nat] Sample.w0
    = FiscoBcosConnector.invokeSmartContract Sample.run_named "contract" "v1"
        (Single Sample.transfer_reordered) 30 [0%nat] Sample.w0.
Proof.
  assert (Hnd : NoDup (keys Sample.transfer))
    by (unfold keys; simpl; solve_NoDup_strings).
  assert (Hperm : Sample.transfer ≡ₚ Sample.transfer_reordered)
    by apply Permutation_cons_append.
  split; [exact Hnd|]. split; [exact Hperm|].
  split; [reflexivity|]. split; [reflexivity|].
  exact (invokeSmartContract_ignores_reserved_key_position Sample.run_named
           "contract" "v1" 30 [0%nat] Sample.w0 Sample.transfer
           Sample.transfer_reordered Hnd Hperm eq_refl eq_refl).
Defined.

Example order_of_other_keys_matters :
  FiscoBcosConnector.normalize
    [("amount", VStr "10"); ("to", VStr "X");
     ("transaction_type", VStr "transferFunds")] Sample.w0
  = (Returns (Some "transferFunds", ["10"; "X"]), Sample.w0).
Proof. reflexivity. Qed.

(** ** One batch or two *)

Section WholeBatches.
Context {TxStatus settings : Type}.
Variable run : settings → string → option string → call_args → string →
               option bool → settlement TxStatus.
Implicit Types w : world TxStatus (FiscoBcosConnectorFields settings).

(** A batch whose argument maps all normalise and whose calls all fulfil,
    each call settling once. *)
Lemma invokeSmartContract_all_fulfilled (contractID contractVer : string)
    (args : list object) (timeout : Z) (sched : list nat)
    (results : list TxStatus) w :
  forallb callable_values args = true →
  underlying_call run (this w) contractID <$> args = Fulfilled <$> results →
  sched ≡ₚ seq 0 (length args) →
  FiscoBcosConnector.invokeSmartContract run contractID contractVer
      (Batch args) timeout sched w
    = (Some (Fulfilled (Many results)),
       mkWorld (this w) (heap w)
         (events w ++ replicate (length args) (TxsSubmitted 1) ++
          (CallSettled <$> sched) ++ [TxsFinished (Many results)])).
Proof.
  intros Hall Hcalls Hperm.
  assert (Hn : length results = length args).
  { by rewrite <- (length_fmap (underlying_call run (this w) contractID)),
      <- (length_fmap Fulfilled results), <- Hcalls. }
  rewrite invokeSmartContract_unfold. simpl invocations_of.
  rewrite forEach_ok by done. simpl app. rewrite Hcalls.
  destruct (decide (results = [])) as [->|Hne].
  - simpl in Hn. rewrite <- Hn in *. simpl in Hperm.
    apply Permutation_nil_r in Hperm as ->.
    simpl. by rewrite app_nil_r.
  - rewrite Promise_all_nonempty by (by destruct results).
    rewrite (Promise_all_go_all_fulfilled results sched).
    + simpl. by rewrite <- !app_assoc.
    + apply all_invariant_init.
    + rewrite Hperm. apply NoDup_seq.
    + intros j Hj. split; [by intros ?%elem_of_empty|].
      rewrite Hperm in Hj. apply elem_of_seq in Hj. lia.
    + rewrite length_fmap, Hperm, length_seq. lia.
    + intros ->. apply Permutation_nil_l in Hperm.
      destruct results; [done|]. simpl in Hn. rewrite <- Hn in Hperm.
      discriminate.
Qed.

End WholeBatches.

(** X12. Sending two lists of argument maps as one batch returns the
    results of the first list followed by those of the second, as two
    separate calls would return them one after the other, provided all maps
    normalise, all calls fulfil and each settles once. The one batch raises
    a single [TxsFinished] with the whole list; the two calls raise one
    each. *)
Theorem invokeSmartContract_concatenation {TxStatus settings : Type}
    (run : settings → string → option string → call_args → string →
           option bool → settlement TxStatus)
    (contractID contractVer : string) (timeout : Z)
    (args1 args2 : list object) (results1 results2 : list TxStatus)
    (sched sched1 sched2 : list nat)
    (w : world TxStatus (FiscoBcosConnectorFields settings)) :
  forallb callable_values args1 = true →
  forallb callable_values args2 = true →
  underlying_call run (this w) contractID <$> args1 = Fulfilled <$> results1 →
  underlying_call run (this w) contractID <$> args2 = Fulfilled <$> results2 →
  sched ≡ₚ seq 0 (length (args1 ++ args2)) →
  sched1 ≡ₚ seq 0 (length args1) →
  sched2 ≡ₚ seq 0 (length args2) →
  let whole := FiscoBcosConnector.invokeSmartContract run contractID
                 contractVer (Batch (args1 ++ args2)) timeout sched w in
  let first := FiscoBcosConnector.invokeSmartContract run contractID
                 contractVer (Batch args1) timeout sched1 w in
  let second := FiscoBcosConnector.invokeSmartContract run contractID
                  contractVer (Batch args2) timeout sched2 first.2 in
  whole.1 = Some (Fulfilled (Many (results1 ++ results2))) ∧
  first.1 = Some (Fulfilled (Many results1)) ∧
  second.1 = Some (Fulfilled (Many results2)) ∧
  filter (λ ev, is_finished ev) (drop (length (events w)) (events whole.2))
    = [TxsFinished (Many (results1 ++ results2))] ∧
  filter (λ ev, is_finished ev) (drop (length (events w)) (events second.2))
    = [TxsFinished (Many results1); TxsFinished (Many results2)].
Proof.
  intros Hall1 Hall2 Hcalls1 Hcalls2 Hperm Hperm1 Hperm2 whole first second.
  subst whole first second.
  rewrite (invokeSmartContract_all_fulfilled run contractID contractVer
             (args1 ++ args2) timeout sched (results1 ++ results2));
    [| by rewrite forallb_app, Hall1, Hall2
     | by rewrite !fmap_app, Hcalls1, Hcalls2
     | done].
  rewrite (invokeSmartContract_all_fulfilled run contractID contractVer
             args1 timeout sched1 results1) by done.
  simpl.
  rewrite (invokeSmartContract_all_fulfilled run contractID contractVer
             args2 timeout sched2 results2) by done.
  simpl. rewrite <- !app_assoc, !drop_app_length.
  split_and!; try done.
  - rewrite !filter_app, filter_replicate_false, filter_fmap_false by done.
    reflexivity.
  - rewrite !filter_app, !filter_replicate_false, !filter_fmap_false by done.
    reflexivity.
Qed.

Lemma invokeSmartContract_concatenation_witness :
  let args1 := [Sample.call "a"; Sample.call "b"] in
  let args2 := [Sample.call "c"] in
  let whole := FiscoBcosConnector.invokeSmartContract Sample.run_named
                 "contract" "v1" (Batch (args1 ++ args2)) 30 [0; 1; 2]%nat
                 Sample.w0 in
  let first := FiscoBcosConnector.invokeSmartContract Sample.run_named
                 "contract" "v1" (Batch args1) 30 [0; 1]%nat Sample.w0 in
  let second := FiscoBcosConnector.invokeSmartContract Sample.run_named
                  "contract" "v1" (Batch args2) 30 [0%nat] first.2 in
  whole.1 = Some (Fulfilled (Many (["a"; "b"] ++ ["c"]))) ∧
  first.1 = Some (Fulfilled (Many ["a"; "b"])) ∧
  second.1 = Some (Fulfilled (Many ["c"])) ∧
  filter (λ ev, is_finished ev)
    (drop (length (events Sample.w0)) (events whole.2))
    = [TxsFinished (Many (["a"; "b"] ++ ["c"]))] ∧
  filter (λ ev, is_finished ev)
    (drop (length (events Sample.w0)) (events second.2))
    = [TxsFinished (Many ["a"; "b"]); TxsFinished (Many ["c"])].
Proof.
  intros args1 args2.
  exact (invokeSmartContract_concatenation Sample.run_named "contract" "v1" 30
           args1 args2 ["a"; "b"] ["c"] [0; 1; 2]%nat [0; 1]%nat [0%nat]
           Sample.w0 eq_refl eq_refl eq_refl eq_refl
           (Permutation_refl _) (Permutation_refl _) (Permutation_refl _)).
Defined.
